(** * A shallow embedding of the file server (index.js)

    The server is one Express application: a bearer-token check, a
    filename sanitizer, the multer disk-storage namer with its MIME
    allow-list, the upload and delete handlers, and the hourly retention
    sweep.  Strings are JavaScript strings, that is sequences of UTF-16
    code units; the storage directory is a finite map from entry names to
    their metadata. *)

From Stdlib Require Import ZArith NArith List Ascii String Bool Lia.
From stdpp Require Import base option list gmap.

Local Open Scope N_scope.

(** ** JavaScript strings *)

Module JS.

(** A string is the sequence of its UTF-16 code units. *)
Abbreviation jsstring := (list N).

(** String literals of the source, all ASCII. *)
Definition lit (s : string) : jsstring :=
  List.map N_of_ascii (list_ascii_of_string s).

(** A value that is a string or [undefined] is an [option]; the empty
    string and [undefined] are the falsy ones. *)
Definition truthy (s : jsstring) : bool :=
  match s with [] => false | _ :: _ => true end.

(** [a || b] where [a] is a string or [undefined] and [b] a string. *)
Definition or_else (a : option jsstring) (b : jsstring) : jsstring :=
  match a with
  | Some s => if truthy s then s else b
  | None => b
  end.

(** [a || b] on two strings. *)
Definition or_str (a b : jsstring) : jsstring :=
  if truthy a then a else b.

(** [a === b] on strings. *)
Definition str_eqb (a b : jsstring) : bool :=
  bool_decide (a = b).

(** [s.startsWith(p)] *)
Fixpoint startsWith (s p : jsstring) {struct p} : bool :=
  match p, s with
  | [], _ => true
  | _ :: _, [] => false
  | x :: p', y :: s' => (x =? y) && startsWith s' p'
  end.

(** [s.slice(n)] for [n >= 0]. *)
Definition slice_from (n : nat) (s : jsstring) : jsstring := drop n s.

(** [s.slice(a, b)] for [0 <= a] and [0 <= b]; an empty string when
    [b <= a]. *)
Definition slice (s : jsstring) (a b : nat) : jsstring :=
  take (b - a) (drop a s).

(** [s.charCodeAt(i)] for an index in range; the loops of the source
    never read out of range, where JavaScript gives [NaN]. *)
Definition charCodeAt (s : jsstring) (i : nat) : N := nth i s 0.

(** Template literals print [undefined] as the word. *)
Definition show (a : option jsstring) : jsstring :=
  match a with Some s => s | None => lit "undefined" end.

(** *** The character classes of the regular expressions *)

Inductive class_item :=
| CWord            (* \w *)
| CChar (c : N).   (* an escaped or plain character *)

(** [\w] without the [i] and [u] flags is [[A-Za-z0-9_]]. *)
Definition is_word (c : N) : bool :=
  ((48 <=? c) && (c <=? 57)) || ((65 <=? c) && (c <=? 90))
  || ((97 <=? c) && (c <=? 122)) || (c =? 95).

Definition item_matches (it : class_item) (c : N) : bool :=
  match it with
  | CWord => is_word c
  | CChar d => c =? d
  end.

(** [[^...]]: a code unit that none of the items matches. *)
Definition negated_class (items : list class_item) (c : N) : bool :=
  negb (existsb (fun it => item_matches it c) items).

(** [s.replace(/[...]/g, repl)] for a pattern that is one character
    class, and a replacement without [$]: every match is one code unit
    long, and the scan resumes right after it. *)
Fixpoint replace_all (cls : N -> bool) (repl : jsstring) (s : jsstring)
  : jsstring :=
  match s with
  | [] => []
  | c :: s' => (if cls c then repl else [c]) ++ replace_all cls repl s'
  end.

End JS.

Import JS.

(** ** Node's [path] module, POSIX flavour

    [path.extname] and [path.basename] are not part of index.js; they are
    transcribed here from the loops of Node's lib/path.js ([posix]), which
    scan the path from its last code unit to its first.  Indices are
    integers because the loops use [-1] as "not seen yet". *)

Module Path.

Definition slash : N := 47.
Definition dot : N := 46.

Definition zslice (s : jsstring) (a b : Z) : jsstring :=
  slice s (Z.to_nat a) (Z.to_nat b).

(** *** [extname(path)] *)

Record ext_state := ExtState {
  startDot : Z;
  startPart : Z;
  ext_end : Z;
  ext_matchedSlash : bool;
  preDotState : Z
}.

Definition ext_init : ext_state := ExtState (-1) 0 (-1) true 0.

(** The body of the [for] loop at index [i] for a code unit that is not
    a separator. *)
Definition ext_step (i : nat) (code : N) (st : ext_state) : ext_state :=
  let st1 :=
    if (ext_end st =? -1)%Z
    then ExtState (startDot st) (startPart st) (Z.of_nat i + 1) false
                  (preDotState st)
    else st in
  if code =? dot then
    if (startDot st1 =? -1)%Z then
      ExtState (Z.of_nat i) (startPart st1) (ext_end st1)
               (ext_matchedSlash st1) (preDotState st1)
    else if negb (preDotState st1 =? 1)%Z then
      ExtState (startDot st1) (startPart st1) (ext_end st1)
               (ext_matchedSlash st1) 1
    else st1
  else if negb (startDot st1 =? -1)%Z then
    ExtState (startDot st1) (startPart st1) (ext_end st1)
             (ext_matchedSlash st1) (-1)
  else st1.

(** [for (let i = n - 1; i >= 0; --i)] *)
Fixpoint ext_loop (path : jsstring) (n : nat) (st : ext_state)
  : ext_state :=
  match n with
  | O => st
  | S i =>
    let code := charCodeAt path i in
    if code =? slash then
      if negb (ext_matchedSlash st) then
        (* break *)
        ExtState (startDot st) (Z.of_nat i + 1) (ext_end st)
                 (ext_matchedSlash st) (preDotState st)
      else ext_loop path i st
    else ext_loop path i (ext_step i code st)
  end.

Definition extname (path : jsstring) : jsstring :=
  let st := ext_loop path (length path) ext_init in
  if (startDot st =? -1)%Z
     || (ext_end st =? -1)%Z
     || (preDotState st =? 0)%Z
     || ((preDotState st =? 1)%Z
         && (startDot st =? ext_end st - 1)%Z
         && (startDot st =? startPart st + 1)%Z)
  then []
  else zslice path (startDot st) (ext_end st).

(** *** [basename(path, suffix)] *)

Record base_state := BaseState {
  b_start : Z;
  b_end : Z;
  b_matchedSlash : bool;
  extIdx : Z;
  firstNonSlashEnd : Z
}.

(** The loop without a suffix. *)
Fixpoint base_loop (path : jsstring) (n : nat) (st : base_state)
  : base_state :=
  match n with
  | O => st
  | S i =>
    if charCodeAt path i =? slash then
      if negb (b_matchedSlash st) then
        (* break *)
        BaseState (Z.of_nat i + 1) (b_end st) (b_matchedSlash st)
                  (extIdx st) (firstNonSlashEnd st)
      else base_loop path i st
    else if (b_end st =? -1)%Z then
      base_loop path i
        (BaseState (b_start st) (Z.of_nat i + 1) false
                   (extIdx st) (firstNonSlashEnd st))
    else base_loop path i st
  end.

(** The body of the loop with a suffix, at a code unit that is not a
    separator. *)
Definition suffix_step (suffix : jsstring) (i : nat) (code : N)
    (st : base_state) : base_state :=
  let st1 :=
    if (firstNonSlashEnd st =? -1)%Z
    then BaseState (b_start st) (b_end st) false (extIdx st)
                   (Z.of_nat i + 1)
    else st in
  if (0 <=? extIdx st1)%Z then
    if code =? charCodeAt suffix (Z.to_nat (extIdx st1)) then
      let e := (extIdx st1 - 1)%Z in
      if (e =? -1)%Z
      then BaseState (b_start st1) (Z.of_nat i) (b_matchedSlash st1) e
                     (firstNonSlashEnd st1)
      else BaseState (b_start st1) (b_end st1) (b_matchedSlash st1) e
                     (firstNonSlashEnd st1)
    else
      BaseState (b_start st1) (firstNonSlashEnd st1) (b_matchedSlash st1)
                (-1) (firstNonSlashEnd st1)
  else st1.

Fixpoint suffix_loop (path suffix : jsstring) (n : nat) (st : base_state)
  : base_state :=
  match n with
  | O => st
  | S i =>
    let code := charCodeAt path i in
    if code =? slash then
      if negb (b_matchedSlash st) then
        (* break *)
        BaseState (Z.of_nat i + 1) (b_end st) (b_matchedSlash st)
                  (extIdx st) (firstNonSlashEnd st)
      else suffix_loop path suffix i st
    else suffix_loop path suffix i (suffix_step suffix i code st)
  end.

Definition basename (path : jsstring) (suffix : option jsstring)
  : jsstring :=
  match suffix with
  | Some sfx =>
    if truthy sfx && (length sfx <=? length path)%nat then
      if str_eqb sfx path then []
      else
        let st := suffix_loop path sfx (length path)
                    (BaseState 0 (-1) true (Z.of_nat (length sfx) - 1)
                               (-1)) in
        let e :=
          if (b_start st =? b_end st)%Z then firstNonSlashEnd st
          else if (b_end st =? -1)%Z then Z.of_nat (length path)
          else b_end st in
        zslice path (b_start st) e
    else
      let st := base_loop path (length path)
                  (BaseState 0 (-1) true (-1) (-1)) in
      if (b_end st =? -1)%Z then []
      else zslice path (b_start st) (b_end st)
  | None =>
    let st := base_loop path (length path)
                (BaseState 0 (-1) true (-1) (-1)) in
    if (b_end st =? -1)%Z then []
    else zslice path (b_start st) (b_end st)
  end.

End Path.

(** ** The filename sanitizer *)

(** [/[^\w\-\.]/g] *)
Definition unsafe_pattern : N -> bool :=
  negated_class [CWord; CChar 45; CChar 46].

(** [function sanitizeBaseName(name)]: the argument may be [undefined]. *)
Definition sanitizeBaseName (name : option jsstring) : jsstring :=
  replace_all unsafe_pattern (lit "_") (or_else name []).

(** The characters the sanitizer is said to keep: word characters,
    hyphens and dots. *)
Definition kept_char (c : N) : bool :=
  is_word c || (c =? 45) || (c =? 46).

Definition underscore : N := 95.

(** ** The MIME allow-list *)

Module Mime.

(** [const ALLOWED = { "image/jpeg": ".jpg", ... }] *)
Definition ALLOWED_entries : list (jsstring * jsstring) :=
  [ (lit "image/jpeg", lit ".jpg");
    (lit "image/png", lit ".png");
    (lit "image/gif", lit ".gif");
    (lit "video/mp4", lit ".mp4") ].

Fixpoint own_property (entries : list (jsstring * jsstring))
    (k : jsstring) : option jsstring :=
  match entries with
  | [] => None
  | (k', v) :: rest => if str_eqb k' k then Some v else own_property rest k
  end.

(** [ALLOWED] is an object literal, so [ALLOWED[k]] also finds what
    [Object.prototype] provides under these names. *)
Definition object_prototype_names : list jsstring :=
  List.map lit
    [ "constructor"; "__defineGetter__"; "__defineSetter__";
      "hasOwnProperty"; "__lookupGetter__"; "__lookupSetter__";
      "isPrototypeOf"; "propertyIsEnumerable"; "toString"; "valueOf";
      "__proto__"; "toLocaleString" ]%string.

(** What an expression of the namer can hold: a string, an object or
    function inherited from [Object.prototype] (named by its property),
    or [undefined]. *)
Inductive value :=
| VStr (s : jsstring)
| VInherited (k : jsstring)
| VUndefined.

(** [ALLOWED[k]] *)
Definition ALLOWED (k : jsstring) : value :=
  match own_property ALLOWED_entries k with
  | Some v => VStr v
  | None =>
    if existsb (str_eqb k) object_prototype_names then VInherited k
    else VUndefined
  end.

Definition vtruthy (v : value) : bool :=
  match v with
  | VStr s => truthy s
  | VInherited _ => true
  | VUndefined => false
  end.

(** [a || b] *)
Definition vor (a b : value) : value := if vtruthy a then a else b.

(** What a template literal prints for a value: [Object.prototype]
    itself under [__proto__], the native functions otherwise. *)
Definition to_string (v : value) : jsstring :=
  match v with
  | VStr s => s
  | VInherited k =>
    if str_eqb k (lit "__proto__") then lit "[object Object]"
    else lit "function "
           ++ (if str_eqb k (lit "constructor") then lit "Object" else k)
           ++ lit "() { [native code] }"
  | VUndefined => lit "undefined"
  end.

(** The declared content type of a part as the multipart parser hands
    it over: [type/subtype], so it holds a slash. *)
Definition is_mime_type (m : jsstring) : bool :=
  existsb (N.eqb 47) m.

(** The four allowed types. *)
Definition allow_list : list jsstring :=
  [ lit "image/jpeg"; lit "image/png"; lit "image/gif"; lit "video/mp4" ].

End Mime.

Import Mime.

(** ** Uploaded parts and the storage namer *)

(** What multer knows of a part when it asks for a name, and the size of
    the body that follows. *)
Record part := Part {
  fieldname : jsstring;
  originalname : jsstring;
  mimetype : jsstring;
  size : Z
}.

Module Namer.

(** The extension chosen by [storage.filename]. *)
Definition extension (file : part) : value :=
  let mime := mimetype file in
  let orig := or_str (originalname file) (lit "file") in
  let defExt :=
    vor (vor (ALLOWED mime) (VStr (Path.extname orig))) (VStr []) in
  let ext := vor (vor (VStr (Path.extname orig)) defExt) (VStr []) in
  if negb (vtruthy ext) then vor (ALLOWED mime) (VStr []) else ext.

Definition base (file : part) : jsstring :=
  let orig := or_str (originalname file) (lit "file") in
  or_str
    (sanitizeBaseName
       (Some (Path.basename orig (Some (Path.extname orig)))))
    (lit "file").

(** [storage.filename]: the name passed to [cb]; [id] is what the call
    of [uuid()] returned. *)
Definition filename (file : part) (id : jsstring) : jsstring :=
  base file ++ lit "_" ++ id ++ to_string (extension file).

(** The shape of a version-4 identifier as [uuid()] prints it: 36
    characters, hexadecimal digits in groups of 8-4-4-4-12 with hyphens
    between them. *)
Definition is_hex (c : N) : bool :=
  ((48 <=? c) && (c <=? 57)) || ((97 <=? c) && (c <=? 102)).

Definition uuid_char_ok (i : nat) (c : N) : bool :=
  if (i =? 8)%nat || (i =? 13)%nat || (i =? 18)%nat || (i =? 23)%nat
  then c =? 45 else is_hex c.

Fixpoint uuid_chars_ok (i : nat) (s : jsstring) : bool :=
  match s with
  | [] => true
  | c :: s' => uuid_char_ok i c && uuid_chars_ok (S i) s'
  end.

Definition uuid_shaped (s : jsstring) : bool :=
  (length s =? 36)%nat && uuid_chars_ok 0 s.

(** *** The algorithm as the specification words it *)

(** Step 1: the extension of the original filename if it has one, else
    the entry of the MIME table if there is one, else empty. *)
Definition spec_extension (orig mime : jsstring) : jsstring :=
  if truthy (Path.extname orig) then Path.extname orig
  else match own_property ALLOWED_entries mime with
       | Some e => e
       | None => []
       end.

(** Step 2: the sanitized file name without its extension, or ["file"]
    when nothing is left. *)
Definition spec_base (orig : jsstring) : jsstring :=
  let stem :=
    sanitizeBaseName (Some (Path.basename orig (Some (Path.extname orig))))
  in
  if truthy stem then stem else lit "file".

(** Step 4: [{base}_{id}{extension}]. *)
Definition spec_filename (orig mime id : jsstring) : jsstring :=
  spec_base orig ++ lit "_" ++ id ++ spec_extension orig mime.

End Namer.

(** ** The storage directory *)

Module Fs.

Inductive kind := RegularFile | Directory | SymbolicLink | OtherKind.

(** What [readdir] and [stat] tell about an entry.  Times are in
    milliseconds, as [Date.now()] and [mtimeMs] give them. *)
Record entry := Entry {
  e_kind : kind;
  mtimeMs : Z;
  e_size : Z
}.

#[global] Instance kind_eq_dec : EqDecision kind.
Proof. solve_decision. Defined.

#[global] Instance entry_eq_dec : EqDecision entry.
Proof. solve_decision. Defined.

(** An error of the [fs] module, with the two fields the server reads. *)
Record fs_error := FsError {
  code : jsstring;
  message : jsstring
}.

(** A write that the system refuses (a name longer than the file system
    takes, no space left, no permission, an I/O error): the error of the
    stream, and the size of the partial file that stays behind if one
    does. *)
Record write_failure := WriteFailure {
  w_error : fs_error;
  w_left : option Z
}.

(** The behaviour of the operating system that the directory content
    does not determine: which calls it refuses (permissions, I/O). *)
Record os := Os {
  unlink_fault : jsstring -> option fs_error;
  stat_fault : jsstring -> option fs_error;
  readdir_fault : option fs_error;
  write_fault : jsstring -> option write_failure
}.

Definition ENOENT (name : jsstring) : fs_error :=
  FsError (lit "ENOENT") (lit "ENOENT: no such file or directory, " ++ name).

Definition EISDIR (name : jsstring) : fs_error :=
  FsError (lit "EISDIR")
          (lit "EISDIR: illegal operation on a directory, " ++ name).

(** [path.join(UPLOAD_DIR, name)] for a name without separator is an
    entry of the directory, unless the name is empty, [.] or [..]: then
    it is the directory itself or its parent. *)
Definition names_directory (name : jsstring) : bool :=
  str_eqb name [] || str_eqb name (lit ".") || str_eqb name (lit "..").

(** [fs.createWriteStream(path.join(UPLOAD_DIR, name))] with [size]
    bytes piped into it at time [now]: the directory afterwards, and the
    error of the stream if it emitted one. *)
Definition write (o : os) (now : Z) (dir : gmap jsstring entry)
    (name : jsstring) (size : Z)
  : gmap jsstring entry * option fs_error :=
  match write_fault o name with
  | Some f =>
    (match w_left f with
     | Some n => <[name := Entry RegularFile now n]> dir
     | None => dir
     end,
     Some (w_error f))
  | None => (<[name := Entry RegularFile now size]> dir, None)
  end.

(** [fsp.unlink(path.join(UPLOAD_DIR, name))]: the error thrown, or the
    directory without the entry. *)
Definition unlink (o : os) (dir : gmap jsstring entry) (name : jsstring)
  : fs_error + gmap jsstring entry :=
  if names_directory name then inl (EISDIR name)
  else match unlink_fault o name with
       | Some err => inl err
       | None =>
         match dir !! name with
         | None => inl (ENOENT name)
         | Some e =>
           match e_kind e with
           | Directory => inl (EISDIR name)
           | _ => inr (delete name dir)
           end
         end
       end.

(** [fsp.stat(path.join(UPLOAD_DIR, name))] *)
Definition stat (o : os) (dir : gmap jsstring entry) (name : jsstring)
  : fs_error + entry :=
  match stat_fault o name with
  | Some err => inl err
  | None =>
    match dir !! name with
    | None => inl (ENOENT name)
    | Some e => inr e
    end
  end.

(** [fsp.readdir(UPLOAD_DIR, { withFileTypes: true })]: name and type
    of every entry. *)
Definition readdir (o : os) (dir : gmap jsstring entry)
  : fs_error + list (jsstring * kind) :=
  match readdir_fault o with
  | Some err => inl err
  | None => inr ((fun ne => (ne.1, e_kind ne.2)) <$> map_to_list dir)
  end.

(** [Dirent.isFile()] *)
Definition isFile (k : kind) : bool :=
  match k with RegularFile => true | _ => false end.

End Fs.

Import Fs.

(** ** Configuration, requests and responses *)

(** The constants read from the environment at start-up: [TOKEN] is
    [process.env.UPLOAD_TOKEN || ""], [MAX_AGE_HOURS] what [parseInt]
    returned for a numeric setting. *)
Record config := Config {
  TOKEN : jsstring;
  PUBLIC_BASE : option jsstring;
  MAX_AGE_HOURS : Z
}.

(** What the handlers read of a request.  [multipart] holds the file
    parts of a multipart body in their order, and is [None] for any other
    body. *)
Record request := Request {
  authorization : option jsstring;
  protocol : jsstring;
  x_forwarded_host : option jsstring;
  host : option jsstring;
  multipart : option (list part);
  param_name : jsstring
}.

(** An entry of the [uploaded] array. *)
Record uploaded_entry := UploadedEntry {
  url : jsstring;
  u_filename : jsstring;
  u_size : Z;
  u_mimetype : jsstring
}.

Inductive body :=
| JsonError (error : jsstring)              (* { error } *)
| JsonUploaded (uploaded : list uploaded_entry)   (* { uploaded } *)
| JsonDeleted (name : jsstring)             (* { deleted: true, name } *)
| ErrorPage (message : jsstring).           (* Express's own error page *)

Record response := Response {
  status : Z;
  payload : body
}.

(** ** The bearer check *)

(** [requireBearer]: [Some] response when the request stops here, [None]
    for [next()]. *)
Definition requireBearer (cfg : config) (req : request) : option response :=
  if negb (truthy (TOKEN cfg)) then
    Some (Response 500 (JsonError (lit "UPLOAD_TOKEN not set")))
  else
    let h := or_else (authorization req) [] in
    let ok := startsWith h (lit "Bearer ")
              && str_eqb (slice_from 7 h) (TOKEN cfg) in
    if negb ok then Some (Response 401 (JsonError (lit "Unauthorized")))
    else None.

(** ** The server state *)

(** The storage directory and the number of identifiers [uuid()] has
    handed out so far. *)
Record world := World {
  dir : gmap jsstring entry;
  uuid_calls : nat
}.

(** ** multer

    [multer({ storage, limits, fileFilter }).fields([...])] is library
    code; this is its part-by-part behaviour for the configuration of
    index.js: a part without filename is skipped, a part for an unknown or
    exhausted field is refused, the file filter is asked, the storage
    engine names and writes the file, and after any error (of multer, of
    the filter or of the write stream) the files the request stored so far
    are unlinked and the error goes to Express. *)

Module Multer.

Inductive error :=
| LIMIT_UNEXPECTED_FILE (field : jsstring)
| LIMIT_FILE_SIZE (field : jsstring)
| FilterError (message : jsstring)
| StorageError (err : fs_error).    (* what the write stream emitted *)

Definition error_message (e : error) : jsstring :=
  match e with
  | LIMIT_UNEXPECTED_FILE _ => lit "Unexpected field"
  | LIMIT_FILE_SIZE _ => lit "File too large"
  | FilterError m => m
  | StorageError err => message err
  end.

(** A file object as the route handler finds it in [req.files]. *)
Record file := File {
  f_fieldname : jsstring;
  f_originalname : jsstring;
  f_mimetype : jsstring;
  f_filename : jsstring;
  f_size : Z
}.

(** [limits: { fileSize: 500 * 1024 * 1024 }] *)
Definition fileSize : Z := 500 * 1024 * 1024.

(** [upload.fields([{ name: "file", maxCount: 1 },
                    { name: "files", maxCount: 20 }])] *)
Definition fields : list (jsstring * Z) :=
  [ (lit "file", 1%Z); (lit "files", 20%Z) ].

(** [fileFilter]: [None] for [cb(null, true)], the message of the error
    otherwise. *)
Definition fileFilter (p : part) : option jsstring :=
  if vtruthy (ALLOWED (mimetype p)) then None
  else Some (lit "Only jpg/png/gif/mp4 allowed").

Record state := State {
  st_world : world;
  filesLeft : gmap jsstring Z;
  uploadedFiles : list file;     (* what an abort removes *)
  accepted : list file;          (* what ends up in [req.files] *)
  handled : list part            (* the parts given to the storage engine *)
}.

Section Engine.

Variable uuid : nat -> jsstring.   (* what the k-th [uuid()] returns *)
Variable now : Z.
Variable o : os.

(** The storage engine on one part: name it, then open a write stream
    on that name and pipe the part into it.  The result is the file
    object, the world afterwards, and the error of the stream if the
    write was refused. *)
Definition handleFile (p : part) (written : Z) (w : world)
  : file * world * option fs_error :=
  let name := Namer.filename p (uuid (uuid_calls w)) in
  let '(d, err) := write o now (dir w) name written in
  (File (fieldname p) (originalname p) (mimetype p) name written,
   World d (S (uuid_calls w)),
   err).

(** One file part. *)
Definition on_file (p : part) (st : state) : state * option error :=
  if negb (truthy (originalname p)) then (st, None)
  else
    let left := default 0%Z (filesLeft st !! fieldname p) in
    if (left <=? 0)%Z then
      (st, Some (LIMIT_UNEXPECTED_FILE (fieldname p)))
    else
      let st1 := State (st_world st)
                       (<[fieldname p := (left - 1)%Z]> (filesLeft st))
                       (uploadedFiles st) (accepted st) (handled st) in
      match fileFilter p with
      | Some msg => (st1, Some (FilterError msg))
      | None =>
        if (fileSize <? size p)%Z then
          (* the stream is cut at the limit and the request aborted *)
          match handleFile p fileSize (st_world st1) with
          | (f, w, Some err) =>
            (State w (filesLeft st1) (uploadedFiles st1)
                   (accepted st1) (handled st1 ++ [p]),
             Some (StorageError err))
          | (f, w, None) =>
            (State w (filesLeft st1) (uploadedFiles st1 ++ [f])
                   (accepted st1) (handled st1 ++ [p]),
             Some (LIMIT_FILE_SIZE (fieldname p)))
          end
        else
          match handleFile p (size p) (st_world st1) with
          | (f, w, Some err) =>
            (* the file is not recorded: the abort will not unlink it *)
            (State w (filesLeft st1) (uploadedFiles st1)
                   (accepted st1) (handled st1 ++ [p]),
             Some (StorageError err))
          | (f, w, None) =>
            (State w (filesLeft st1) (uploadedFiles st1 ++ [f])
                   (accepted st1 ++ [f]) (handled st1 ++ [p]),
             None)
          end
      end.

(** The parts in their order, up to the first error. *)
Fixpoint on_parts (ps : list part) (st : state) : state * option error :=
  match ps with
  | [] => (st, None)
  | p :: rest =>
    match on_file p st with
    | (st', None) => on_parts rest st'
    | (st', Some e) => (st', Some e)
    end
  end.

(** [removeUploadedFiles]: unlink each stored file; what cannot be
    removed is reported with the error, not thrown. *)
Fixpoint removeUploadedFiles (fs : list file)
    (d : gmap jsstring entry) : gmap jsstring entry :=
  match fs with
  | [] => d
  | f :: rest =>
    removeUploadedFiles rest
      (match unlink o d (f_filename f) with
       | inl _ => d
       | inr d' => d'
       end)
  end.

Definition init (w : world) : state :=
  State w (list_to_map fields) [] [] [].

(** The middleware on a multipart body: the state at its end, with
    the error it passes to [next] if any. *)
Definition run (ps : list part) (w : world)
  : state * option error :=
  match on_parts ps (init w) with
  | (st, None) => (st, None)
  | (st, Some e) =>
    (State (World (removeUploadedFiles (uploadedFiles st)
                     (dir (st_world st)))
                  (uuid_calls (st_world st)))
           (filesLeft st) (uploadedFiles st) (accepted st) (handled st),
     Some e)
  end.

(** [req.files[field]]: [undefined] when no file came for the field,
    which the handler treats like an empty array. *)
Definition files_of (field : jsstring) (fs : list file) : list file :=
  List.filter (fun f => str_eqb (f_fieldname f) field) fs.

End Engine.

End Multer.

(** ** The routes *)

Section Routes.

Variable encodeURIComponent : jsstring -> jsstring.
Variable uuid : nat -> jsstring.
Variable cfg : config.
Variable o : os.
Variable now : Z.           (* [Date.now()] *)

(** [a || b] on two header values. *)
Definition or_header (a b : option jsstring) : option jsstring :=
  match a with
  | Some s => if truthy s then a else b
  | None => b
  end.

Definition public_host (req : request) : jsstring :=
  match PUBLIC_BASE cfg with
  | Some b =>
    if truthy b then b
    else protocol req ++ lit "://"
         ++ show (or_header (x_forwarded_host req) (host req))
  | None =>
    protocol req ++ lit "://"
    ++ show (or_header (x_forwarded_host req) (host req))
  end.

(** [add] *)
Definition add (host : jsstring) (f : Multer.file)
    (collected : list uploaded_entry) : list uploaded_entry :=
  collected
  ++ [ UploadedEntry
         (host ++ lit "/files/" ++ encodeURIComponent (Multer.f_filename f))
         (Multer.f_filename f) (Multer.f_size f) (Multer.f_mimetype f) ].

(** [arr.forEach(add)] *)
Definition forEach_add (host : jsstring) (fs : list Multer.file)
    (collected : list uploaded_entry) : list uploaded_entry :=
  fold_left (fun acc f => add host f acc) fs collected.

(** The last handler of [POST /upload]; [files] is [req.files] as the
    list of accepted files, or [None] when multer left it unset. *)
Definition upload_handler (req : request)
    (files : option (list Multer.file)) : response :=
  let host := public_host req in
  let collected := [] in
  let collected :=
    match files with
    | Some fs => forEach_add host (Multer.files_of (lit "file") fs) collected
    | None => collected
    end in
  let collected :=
    match files with
    | Some fs => forEach_add host (Multer.files_of (lit "files") fs) collected
    | None => collected
    end in
  if (length collected =? 0)%nat
  then Response 400 (JsonError (lit "No files received"))
  else Response 200 (JsonUploaded collected).

(** [app.post("/upload", requireBearer, upload.fields(...), handler)] *)
Definition post_upload (req : request) (w : world) : response * world :=
  match requireBearer cfg req with
  | Some r => (r, w)
  | None =>
    match multipart req with
    | None => (upload_handler req None, w)
    | Some ps =>
      match Multer.run uuid now o ps w with
      | (st, Some e) =>
        (Response 500 (ErrorPage (Multer.error_message e)),
         Multer.st_world st)
      | (st, None) =>
        (upload_handler req (Some (Multer.accepted st)), Multer.st_world st)
      end
    end
  end.

(** [app.delete("/files/:name", requireBearer, handler)] *)
Definition delete_file (req : request) (w : world) : response * world :=
  match requireBearer cfg req with
  | Some r => (r, w)
  | None =>
    let name := Path.basename (param_name req) None in
    match unlink o (dir w) name with
    | inl err =>
      if negb (str_eqb (code err) (lit "ENOENT"))
      then (Response 500 (JsonError (message err)), w)
      else (Response 200 (JsonDeleted name), w)
    | inr d => (Response 200 (JsonDeleted name), World d (uuid_calls w))
    end
  end.

(** *** The retention sweep *)

Inductive log_line :=
| LogRemoved (removed : nat)      (* [clean] removed n old files *)
| LogError (message : jsstring).  (* [clean] error: ... *)

Record sweep := Sweep {
  sw_dir : gmap jsstring entry;
  removed : nat;
  unlinked : list jsstring     (* the names [unlink] was called on *)
}.

(** [for (const e of entries)]: the state when the loop ends, and the
    error that ended it if one was thrown. *)
Fixpoint sweep_entries (maxAgeMs : Z) (entries : list (jsstring * kind))
    (s : sweep) : sweep * option fs_error :=
  match entries with
  | [] => (s, None)
  | (name, k) :: rest =>
    if negb (isFile k) then sweep_entries maxAgeMs rest s
    else
      match stat o (sw_dir s) name with
      | inl err => (s, Some err)
      | inr st =>
        if (maxAgeMs <? now - mtimeMs st)%Z then
          let d := match unlink o (sw_dir s) name with
                   | inl _ => sw_dir s      (* [.catch(() => {})] *)
                   | inr d' => d'
                   end in
          sweep_entries maxAgeMs rest
            (Sweep d (S (removed s)) (unlinked s ++ [name]))
        else sweep_entries maxAgeMs rest s
      end
  end.

(** [cleanOldFiles] *)
Definition cleanOldFiles (d : gmap jsstring entry)
  : sweep * list log_line :=
  match readdir o d with
  | inl err => (Sweep d 0 [], [LogError (message err)])
  | inr entries =>
    let maxAgeMs := (MAX_AGE_HOURS cfg * 60 * 60 * 1000)%Z in
    match sweep_entries maxAgeMs entries (Sweep d 0 []) with
    | (s, Some err) => (s, [LogError (message err)])
    | (s, None) =>
      (s, if (0 <? removed s)%nat then [LogRemoved (removed s)] else [])
    end
  end.

End Routes.

(** ** Predicates of the statements *)

(** The entry [x] of a directory is a regular file whose age at [now]
    is strictly above [maxAgeMs]. *)
Definition is_due (d : gmap jsstring entry) (now maxAgeMs : Z)
    (x : jsstring) : bool :=
  match d !! x with
  | Some e => isFile (e_kind e) && (maxAgeMs <? now - mtimeMs e)%Z
  | None => false
  end.

(** The operating system refuses to unlink [x] whatever the directory
    holds. *)
Definition unlink_refused (o : os) (x : jsstring) : bool :=
  names_directory x
  || match unlink_fault o x with Some _ => true | None => false end.

(** The parts of a body that carry a file: those with a filename. *)
Definition file_parts (ps : list part) : list part :=
  List.filter (fun p => truthy (originalname p)) ps.

(** The number of file parts sent under one field. *)
Definition count_field (field : jsstring) (ps : list part) : nat :=
  length (List.filter (fun p => str_eqb (fieldname p) field) (file_parts ps)).

(** A part that the upload route takes: sent as [file] or [files], of an
    allowed type, within the size limit. *)
Definition valid_part (p : part) : bool :=
  (str_eqb (fieldname p) (lit "file") || str_eqb (fieldname p) (lit "files"))
  && bool_decide (mimetype p ∈ allow_list)
  && (size p <=? Multer.fileSize)%Z.

(** A body that the upload route takes whole: valid file parts, at most
    one under [file] and at most twenty under [files]. *)
Definition valid_upload (ps : list part) : bool :=
  forallb valid_part (file_parts ps)
  && (count_field (lit "file") ps <=? 1)%nat
  && (count_field (lit "files") ps <=? 20)%nat.

(** The name was made by the namer for one of the parts [hs]. *)
Definition named_after (uuid : nat -> jsstring) (hs : list part)
    (name : jsstring) : Prop :=
  exists (q : part) (k : nat), q ∈ hs /\ name = Namer.filename q (uuid k).

(** The file object the engine makes of a part under the identifier
    [id]. *)
Definition stored_file (p : part) (id : jsstring) : Multer.file :=
  Multer.File (fieldname p) (originalname p) (mimetype p)
              (Namer.filename p id) (size p).

(** The file objects of the file parts of a body, in their order, when
    the first call of [uuid()] is the [n]-th. *)
Fixpoint stored_files (uuid : nat -> jsstring) (n : nat) (ps : list part)
  : list Multer.file :=
  match ps with
  | [] => []
  | p :: rest =>
    if truthy (originalname p)
    then stored_file p (uuid n) :: stored_files uuid (S n) rest
    else stored_files uuid n rest
  end.

(** The entry that [add] pushes for a file. *)
Definition entry_of (encodeURIComponent : jsstring -> jsstring)
    (host : jsstring) (f : Multer.file) : uploaded_entry :=
  UploadedEntry
    (host ++ lit "/files/" ++ encodeURIComponent (Multer.f_filename f))
    (Multer.f_filename f) (Multer.f_size f) (Multer.f_mimetype f).

(** ** Invariants of the loops *)

Module Invariants.

(** The request passes the bearer check. *)
Definition authorized (cfg : config) (req : request) : Prop :=
  TOKEN cfg <> [] /\ authorization req = Some (lit "Bearer " ++ TOKEN cfg).

Section OnPath.

Import Path.

Variable path : jsstring.

(** [basename] without suffix, before index [n]: nothing but separators
    seen yet, or the end of the name is marked and no separator stands
    between [n] and it. *)
Definition base_inv (n : nat) (st : base_state) : Prop :=
  b_start st = 0%Z
  /\ ((b_end st = (-1)%Z /\ b_matchedSlash st = true)
      \/ (b_matchedSlash st = false
          /\ (Z.of_nat n < b_end st)%Z
          /\ forall j : nat,
               (Z.of_nat n <= Z.of_nat j < b_end st)%Z ->
               charCodeAt path j <> slash)).

Definition base_post (st : base_state) : Prop :=
  b_end st = (-1)%Z
  \/ ((0 <= b_start st)%Z
      /\ forall j : nat,
           (b_start st <= Z.of_nat j < b_end st)%Z ->
           charCodeAt path j <> slash).

(** [extname], before index [n]: nothing but separators seen yet; or the
    end is marked and either no dot stands between [n] and it, or
    [startDot] is the last dot before it. *)
Definition dot_free_between (a b : Z) : Prop :=
  forall j : nat, (a <= Z.of_nat j < b)%Z -> charCodeAt path j <> dot.

Definition ext_inv (n : nat) (st : ext_state) : Prop :=
  (ext_end st = (-1)%Z /\ startDot st = (-1)%Z)
  \/ ((Z.of_nat n < ext_end st <= Z.of_nat (length path))%Z
      /\ ((startDot st = (-1)%Z /\ dot_free_between (Z.of_nat n) (ext_end st))
          \/ ((Z.of_nat n <= startDot st < ext_end st)%Z
              /\ charCodeAt path (Z.to_nat (startDot st)) = dot
              /\ dot_free_between (startDot st + 1) (ext_end st)))).

Definition ext_post (st : ext_state) : Prop :=
  startDot st = (-1)%Z
  \/ ext_end st = (-1)%Z
  \/ ((0 <= startDot st < ext_end st)%Z
      /\ (ext_end st <= Z.of_nat (length path))%Z
      /\ charCodeAt path (Z.to_nat (startDot st)) = dot
      /\ dot_free_between (startDot st + 1) (ext_end st)).

(** [extname] on a path without separator, before index [n]: the end is
    the end of the path, and [preDotState] has left 0 only once something
    stands before the dot. *)
Definition ext_flat_inv (n : nat) (st : ext_state) : Prop :=
  (n = length path /\ st = ext_init)
  \/ ((n < length path)%nat
      /\ ext_end st = Z.of_nat (length path)
      /\ ((startDot st = (-1)%Z /\ preDotState st = 0%Z)
          \/ ((Z.of_nat n <= startDot st < Z.of_nat (length path))%Z
              /\ (preDotState st = 0%Z \/ (Z.of_nat n < startDot st)%Z)))).

End OnPath.

(** The state of [basename] without suffix on a path of length [L]
    without separator, before index [n]. *)
Definition base_flat_state (L n : nat) : Path.base_state :=
  if (n =? L)%nat then Path.BaseState 0 (-1) true (-1) (-1)
  else Path.BaseState 0 (Z.of_nat L) false (-1) (-1).

(** The state of [basename] with a suffix of length [L - P] on a path of
    length [L] that ends with it and holds no separator, before index
    [n]. *)
Definition suffix_state (P L n : nat) : Path.base_state :=
  if (n =? L)%nat then
    Path.BaseState 0 (-1) true (Z.of_nat (L - P) - 1) (-1)
  else if (P <? n)%nat then
    Path.BaseState 0 (-1) false (Z.of_nat n - Z.of_nat P - 1) (Z.of_nat L)
  else Path.BaseState 0 (Z.of_nat P) false (-1) (Z.of_nat L).

(** What the engine keeps true of its state, from the state [w0] of the
    server when the request came in: only parts that passed the filter
    reach the storage engine, and every file it stored and every change
    of the directory bears a name made for one of them. *)
Definition engine_inv (uuid : nat -> jsstring) (w0 : world)
    (st : Multer.state) : Prop :=
  (forall q, q ∈ Multer.handled st -> Multer.fileFilter q = None)
  /\ (forall f, f ∈ Multer.uploadedFiles st ->
        named_after uuid (Multer.handled st) (Multer.f_filename f))
  /\ (forall name, dir (Multer.st_world st) !! name <> dir w0 !! name ->
        named_after uuid (Multer.handled st) name).

End Invariants.

Import Invariants.

(** ** Sample data *)

Module Sample.

Definition cfg : config := Config (lit "secret") None 24.

(** An operating system that refuses nothing. *)
Definition quiet : os :=
  Os (fun _ => None) (fun _ => None) None (fun _ => None).

(** An operating system that refuses to unlink [locked.png]. *)
Definition stubborn : os :=
  Os (fun n => if str_eqb n (lit "locked.png")
               then Some (FsError (lit "EACCES") (lit "EACCES: permission denied"))
               else None)
     (fun _ => None) None (fun _ => None).

(** Three identifiers as [uuid()] prints them. *)
Definition uuid (k : nat) : jsstring :=
  match k with
  | 0%nat => lit "1b9d6bcd-bbfd-4b2d-9b5d-ab8dfbbd4bed"
  | 1%nat => lit "6ec0bd7f-11c0-43da-975e-2a8ad9ebae0b"
  | _ => lit "109156be-c4fb-41ea-b1b4-efe1671c5836"
  end.

(** [encodeURIComponent] on names of unreserved characters only, which it
    leaves as they are. *)
Definition encode_unreserved (s : jsstring) : jsstring := s.

Definition photo : part :=
  Part (lit "file") (lit "my photo.png") (lit "image/png") 1024.

Definition clip : part :=
  Part (lit "files") (lit "clip") (lit "video/mp4") 2048.

Definition document : part :=
  Part (lit "file") (lit "report.pdf") (lit "application/pdf") 512.

Definition upload (ps : list part) : request :=
  Request (Some (lit "Bearer secret")) (lit "https") None
          (Some (lit "files.example")) (Some ps) [].

Definition deletion (name : jsstring) : request :=
  Request (Some (lit "Bearer secret")) (lit "https") None
          (Some (lit "files.example")) None name.

Definition empty_world : world := World ∅ 0.

(** A directory at time [100 * 3600000]: a file of 25 hours, a file of
    exactly 24 hours, a subdirectory of 30 hours, and a locked file of 48
    hours. *)
Definition now : Z := 100 * 3600000.

Definition shelf : gmap jsstring entry :=
  <[lit "old.png" := Entry RegularFile (75 * 3600000) 10]>
    (<[lit "edge.png" := Entry RegularFile (76 * 3600000) 20]>
      (<[lit "sub" := Entry Directory (70 * 3600000) 0]>
        (<[lit "locked.png" := Entry RegularFile (52 * 3600000) 30]> ∅))).

End Sample.

(** ** Further invariants and predicates *)

Module MoreInvariants.

Section OnPath.

Import Path.

Variable path : jsstring.

(** [extname], before index [n], as to separators: nothing but
    separators seen yet; or the end is marked, no separator stands between
    [n] and it, and [startDot] if set is not before [n]. *)
Definition ext_slash_inv (n : nat) (st : ext_state) : Prop :=
  (ext_end st = (-1)%Z /\ ext_matchedSlash st = true
   /\ startDot st = (-1)%Z)
  \/ (ext_matchedSlash st = false
      /\ (Z.of_nat n < ext_end st)%Z
      /\ (forall j : nat,
            (Z.of_nat n <= Z.of_nat j < ext_end st)%Z ->
            charCodeAt path j <> slash)
      /\ (startDot st = (-1)%Z \/ (Z.of_nat n <= startDot st)%Z)).

Definition ext_slash_post (st : ext_state) : Prop :=
  startDot st = (-1)%Z
  \/ ext_end st = (-1)%Z
  \/ ((0 <= startDot st)%Z
      /\ forall j : nat,
           (startDot st <= Z.of_nat j < ext_end st)%Z ->
           charCodeAt path j <> slash).

End OnPath.

(** The directory after the storage engine wrote the files [fs] at time
    [now], in their order. *)
Definition write_files (now : Z) (fs : list Multer.file)
    (d : gmap jsstring entry) : gmap jsstring entry :=
  foldl (fun acc f =>
           <[Multer.f_filename f := Entry RegularFile now (Multer.f_size f)]>
             acc)
        d fs.

(** What the sweep keeps true of its state, from the directory [d] it
    listed: an entry is as in [d] or is a due entry that is gone, the
    names unlinked are due entries, and the counter counts them. *)
Definition sweep_inv (d : gmap jsstring entry) (now maxAgeMs : Z)
    (s : sweep) : Prop :=
  (forall x : jsstring,
     sw_dir s !! x = d !! x
     \/ (sw_dir s !! x = None /\ is_due d now maxAgeMs x = true))
  /\ (forall x : jsstring,
        x ∈ unlinked s -> is_due d now maxAgeMs x = true)
  /\ removed s = length (unlinked s).

End MoreInvariants.

Import MoreInvariants.

(** ** More sample data *)

Module MoreSamples.

Definition second_photo : part :=
  Part (lit "file") (lit "other.png") (lit "image/png") 77.

Definition huge : part :=
  Part (lit "files") (lit "film.mp4") (lit "video/mp4")
       (500 * 1024 * 1024 + 1).

(** A directory that holds one stored file and a subdirectory. *)
Definition stored_name : jsstring :=
  lit "my_photo_1b9d6bcd-bbfd-4b2d-9b5d-ab8dfbbd4bed.png".

Definition one_file : world :=
  World (<[stored_name := Entry RegularFile 5 1024]>
           (<[lit "sub" := Entry Directory 1 0]> ∅)) 1.

(** An operating system whose [stat] fails on [old.png]. *)
Definition blind : os :=
  Os (fun _ => None)
     (fun n => if str_eqb n (lit "old.png")
               then Some (FsError (lit "EIO") (lit "EIO: i/o error"))
               else None)
     None (fun _ => None).

(** An operating system that cannot list the directory. *)
Definition closed : os :=
  Os (fun _ => None) (fun _ => None)
     (Some (FsError (lit "EACCES") (lit "EACCES: permission denied")))
     (fun _ => None).

(** An operating system whose file names hold at most 255 units: a
    longer one cannot be opened, and nothing is created. *)
Definition short_names : os :=
  Os (fun _ => None) (fun _ => None) None
     (fun n => if (255 <? length n)%nat
               then Some (WriteFailure
                            (FsError (lit "ENAMETOOLONG")
                                     (lit "ENAMETOOLONG: name too long"))
                            None)
               else None).

(** A picture whose name has 304 units. *)
Definition long_named : part :=
  Part (lit "file") (repeat 97%N 300 ++ lit ".png") (lit "image/png") 10.

End MoreSamples.

(** * Properties *)

(** ** The sanitizer *)

Module SanitizerFacts.

Lemma or_else_string (s : jsstring) : or_else (Some s) [] = s.
Proof. by destruct s. Qed.

Lemma unsafe_pattern_kept (c : N) : unsafe_pattern c = negb (kept_char c).
Proof.
  unfold unsafe_pattern, negated_class, kept_char. simpl.
  by rewrite orb_false_r, orb_assoc.
Qed.

Lemma underscore_kept : kept_char underscore = true.
Proof. reflexivity. Qed.

(** One step of the scan: a kept code unit is copied, any other one
    becomes a single underscore. *)
Lemma sanitize_cons (c : N) (s : jsstring) :
  sanitizeBaseName (Some (c :: s))
  = (if kept_char c then c else underscore) :: sanitizeBaseName (Some s).
Proof.
  unfold sanitizeBaseName. rewrite !or_else_string. simpl.
  rewrite unsafe_pattern_kept. by destruct (kept_char c).
Qed.

Lemma sanitize_nil : sanitizeBaseName (Some []) = [].
Proof. reflexivity. Qed.

Lemma sanitize_undefined : sanitizeBaseName None = [].
Proof. reflexivity. Qed.

Lemma sanitize_length (s : jsstring) :
  length (sanitizeBaseName (Some s)) = length s.
Proof.
  induction s as [|c s IH]; [done|].
  rewrite sanitize_cons. simpl. by rewrite IH.
Qed.

Lemma sanitize_lookup (s : jsstring) (i : nat) (c : N) :
  s !! i = Some c ->
  sanitizeBaseName (Some s) !! i
  = Some (if kept_char c then c else underscore).
Proof.
  revert i. induction s as [|d s IH]; intros i Hi; [done|].
  rewrite sanitize_cons. destruct i as [|i]; simpl in *.
  - by inversion Hi.
  - by apply IH.
Qed.

Lemma sanitize_kept (s : jsstring) :
  Forall (fun c => kept_char c = true) (sanitizeBaseName (Some s)).
Proof.
  induction s as [|c s IH]; [constructor|].
  rewrite sanitize_cons. constructor; [|done].
  destruct (kept_char c) eqn:E; [done | apply underscore_kept].
Qed.

(** A string of kept characters only is a fixed point. *)
Lemma sanitize_fixed (s : jsstring) :
  Forall (fun c => kept_char c = true) s -> sanitizeBaseName (Some s) = s.
Proof.
  induction 1 as [|c s Hc _ IH]; [done|].
  by rewrite sanitize_cons, Hc, IH.
Qed.

(** C4. The sanitizer is defined on every string (and on [undefined],
    which it reads as the empty string); its result holds only word
    characters, hyphens and dots, is as long as the input, and has at
    each index the input's code unit when that is a kept character and
    an underscore otherwise. *)
Theorem sanitize_contract (s : jsstring) :
  exists out : jsstring,
    sanitizeBaseName (Some s) = out
    /\ Forall (fun c => kept_char c = true) out
    /\ length out = length s
    /\ (forall (i : nat) (c : N),
          s !! i = Some c ->
          out !! i = Some (if kept_char c then c else underscore))
    /\ sanitizeBaseName None = [].
Proof.
  exists (sanitizeBaseName (Some s)).
  split; [done|]. split; [apply sanitize_kept|].
  split; [apply sanitize_length|].
  split; [apply sanitize_lookup | apply sanitize_undefined].
Qed.

(** C3, as the specification states it, fails: the one-character
    string ["/"] holds no kept character, and its image is ["_"], not
    the empty string. *)
Lemma sanitize_all_invalid_nonempty :
  ~ (forall s : jsstring,
       sanitizeBaseName (Some s) = []
       <-> (s = [] \/ Forall (fun c => kept_char c = false) s)).
Proof.
  intros H. specialize (H (lit "/")).
  destruct H as [_ H].
  assert (E : sanitizeBaseName (Some (lit "/")) = []).
  { apply H. right. by repeat constructor. }
  vm_compute in E. discriminate E.
Qed.

(** C3, amended.  The result is empty exactly for the empty input; an
    input without any kept character comes out as that many
    underscores. *)
Theorem sanitize_empty_iff (s : jsstring) :
  (sanitizeBaseName (Some s) = [] <-> s = [])
  /\ (Forall (fun c => kept_char c = false) s ->
      sanitizeBaseName (Some s) = replicate (length s) underscore).
Proof.
  split.
  - split.
    + intros E. apply (f_equal length) in E.
      rewrite sanitize_length in E. by destruct s.
    + by intros ->.
  - induction 1 as [|c s Hc _ IH]; [done|].
    rewrite sanitize_cons, Hc, IH. done.
Qed.

(** C10. Sanitizing twice is sanitizing once, for a string and for
    [undefined] alike: every code unit of the first result is a kept
    character, which the second pass leaves alone. *)
Theorem sanitize_idempotent (name : option jsstring) :
  sanitizeBaseName (Some (sanitizeBaseName name)) = sanitizeBaseName name.
Proof.
  destruct name as [s|]; [|done].
  apply sanitize_fixed, sanitize_kept.
Qed.

End SanitizerFacts.

(** ** The bearer check *)

Module AuthFacts.

Lemma startsWith_app (s p : jsstring) :
  startsWith s p = true <-> exists r, s = p ++ r.
Proof.
  revert s. induction p as [|x p IH]; intros s; simpl.
  - split; [intros _; by exists s | done].
  - destruct s as [|y s].
    + split; [done | intros [r Hr]; discriminate Hr].
    + rewrite andb_true_iff, N.eqb_eq, IH. split.
      * intros [-> [r ->]]. by exists r.
      * intros [r Hr]. inversion Hr; subst. split; [done | by exists r].
Qed.

(** [ok] of [requireBearer] holds exactly for the header
    [Bearer <token>]. *)
Lemma bearer_ok (h tok : jsstring) :
  startsWith h (lit "Bearer ") && str_eqb (slice_from 7 h) tok = true
  <-> h = lit "Bearer " ++ tok.
Proof.
  rewrite andb_true_iff, startsWith_app. unfold str_eqb, slice_from.
  rewrite bool_decide_eq_true. split.
  - intros [[r ->] E]. change (drop 7 (lit "Bearer " ++ r)) with r in E.
    by subst.
  - intros ->. split; [by exists tok | done].
Qed.

Lemma truthy_nonempty (s : jsstring) : s <> [] -> truthy s = true.
Proof. by destruct s. Qed.

Lemma requireBearer_unset (cfg : config) (req : request) :
  TOKEN cfg = [] ->
  requireBearer cfg req
  = Some (Response 500 (JsonError (lit "UPLOAD_TOKEN not set"))).
Proof. unfold requireBearer. by intros ->. Qed.

Lemma requireBearer_denied (cfg : config) (req : request) :
  TOKEN cfg <> [] ->
  authorization req <> Some (lit "Bearer " ++ TOKEN cfg) ->
  requireBearer cfg req
  = Some (Response 401 (JsonError (lit "Unauthorized"))).
Proof.
  intros Ht Hh. unfold requireBearer.
  rewrite (truthy_nonempty _ Ht). cbn [negb].
  set (h := or_else (authorization req) []).
  destruct (startsWith h (lit "Bearer ") && str_eqb (slice_from 7 h) (TOKEN cfg))
    eqn:E; [|done].
  apply bearer_ok in E. exfalso. apply Hh.
  subst h. destruct (authorization req) as [a|].
  - rewrite SanitizerFacts.or_else_string in E. by rewrite E.
  - discriminate E.
Qed.

Lemma requireBearer_granted (cfg : config) (req : request) :
  TOKEN cfg <> [] ->
  authorization req = Some (lit "Bearer " ++ TOKEN cfg) ->
  requireBearer cfg req = None.
Proof.
  intros Ht Hh. unfold requireBearer.
  rewrite (truthy_nonempty _ Ht). cbn [negb].
  rewrite Hh. change (or_else (Some (lit "Bearer " ++ TOKEN cfg)) [])
    with (lit "Bearer " ++ TOKEN cfg).
  by rewrite (proj2 (bearer_ok _ _) eq_refl).
Qed.

Lemma requireBearer_next (cfg : config) (req : request) :
  requireBearer cfg req = None <-> authorized cfg req.
Proof.
  split.
  - intros E. destruct (decide (TOKEN cfg = [])) as [Ht|Ht].
    { by rewrite requireBearer_unset in E. }
    split; [done|].
    destruct (decide (authorization req = Some (lit "Bearer " ++ TOKEN cfg)))
      as [Hh|Hh]; [done|].
    by rewrite requireBearer_denied in E.
  - intros [Ht Hh]. by apply requireBearer_granted.
Qed.

Lemma sample_upload_authorized (ps : list part) :
  authorized Sample.cfg (Sample.upload ps).
Proof. split; [discriminate | reflexivity]. Qed.

Lemma sample_deletion_authorized (name : jsstring) :
  authorized Sample.cfg (Sample.deletion name).
Proof. split; [discriminate | reflexivity]. Qed.

(** C1. On [POST /upload], an empty configured token gives 500 whatever
    the request carries; with a token configured, a request whose
    Authorization header is absent or differs from [Bearer <token>] gives
    401.  Either way the storage directory (and the identifier count) is
    what it was: multer never sees the request. *)
Theorem upload_bearer_check
    (encodeURIComponent : jsstring -> jsstring) (uuid : nat -> jsstring)
    (cfg : config) (o : os) (now : Z) (req : request) (w : world) :
  (TOKEN cfg = [] ->
   post_upload encodeURIComponent uuid cfg o now req w
   = (Response 500 (JsonError (lit "UPLOAD_TOKEN not set")), w))
  /\ (TOKEN cfg <> [] ->
      authorization req <> Some (lit "Bearer " ++ TOKEN cfg) ->
      post_upload encodeURIComponent uuid cfg o now req w
      = (Response 401 (JsonError (lit "Unauthorized")), w)).
Proof.
  unfold post_upload. split.
  - intros Ht. by rewrite requireBearer_unset.
  - intros Ht Hh. by rewrite requireBearer_denied.
Qed.

End AuthFacts.

(** ** The path functions *)

Module PathFacts.

Import Path.

(** The transcription on the examples of Node's documentation and on
    the corner cases of the loops. *)
Example extname_examples :
  extname (lit "index.html") = lit ".html"
  /\ extname (lit "index.coffee.md") = lit ".md"
  /\ extname (lit "index.") = lit "."
  /\ extname (lit "index") = []
  /\ extname (lit ".index") = []
  /\ extname (lit ".index.md") = lit ".md"
  /\ extname (lit "..") = []
  /\ extname (lit "dir.d/name") = []
  /\ extname (lit "dir/name.txt/") = lit ".txt".
Proof. by vm_compute. Qed.

Example basename_examples :
  basename (lit "/foo/bar/baz/asdf/quux.html") None = lit "quux.html"
  /\ basename (lit "/foo/bar/baz/asdf/quux.html") (Some (lit ".html"))
     = lit "quux"
  /\ basename (lit "../secret") None = lit "secret"
  /\ basename (lit "dir/") None = lit "dir"
  /\ basename (lit "..") None = lit ".."
  /\ basename (lit "/") None = []
  /\ basename (lit "aaa") (Some (lit "a")) = lit "aa"
  /\ basename (lit ".png") (Some (lit ".png")) = [].
Proof. by vm_compute. Qed.

Lemma charCodeAt_lookup (s : jsstring) (i : nat) (c : N) :
  s !! i = Some c -> charCodeAt s i = c.
Proof.
  unfold charCodeAt. revert i.
  induction s as [|d s IH]; intros [|i] H; simpl in *;
    try done; [by inversion H | by apply IH].
Qed.

(** Every code unit of a slice sits at an index of the range. *)
Lemma elem_of_zslice (s : jsstring) (a b : Z) (c : N) :
  (0 <= a)%Z ->
  c ∈ zslice s a b ->
  exists j : nat, (a <= Z.of_nat j < b)%Z /\ charCodeAt s j = c.
Proof.
  intros Ha Hc. unfold zslice, slice in Hc.
  apply list_elem_of_lookup in Hc as [i Hi].
  apply lookup_take_Some in Hi as [Hi Hlt].
  rewrite lookup_drop in Hi.
  exists (Z.to_nat a + i)%nat. split; [lia|].
  by apply charCodeAt_lookup.
Qed.

(** A non-empty slice starts with the code unit at its first index. *)
Lemma zslice_head (s : jsstring) (a b : Z) :
  (0 <= a < b)%Z -> (b <= Z.of_nat (length s))%Z ->
  zslice s a b = charCodeAt s (Z.to_nat a) :: zslice s (a + 1) b.
Proof.
  intros Hab Hb. unfold zslice, slice.
  destruct (lookup_lt_is_Some_2 s (Z.to_nat a)) as [c Hc]; [lia|].
  rewrite (charCodeAt_lookup _ _ _ Hc).
  rewrite (drop_S _ _ _ Hc).
  replace (Z.to_nat b - Z.to_nat a)%nat
    with (S (Z.to_nat b - Z.to_nat (a + 1)))%nat by lia.
  simpl. by replace (Z.to_nat (a + 1)) with (S (Z.to_nat a)) by lia.
Qed.

(** *** [basename] without suffix *)

Section BaseLoop.

Variable path : jsstring.

Lemma base_loop_post (n : nat) (st : base_state) :
  base_inv path n st -> base_post path (base_loop path n st).
Proof.
  revert st. induction n as [|i IH]; intros st [Hs Hinv]; simpl.
  - destruct Hinv as [[He _]|(_ & _ & Hj)]; [by left|].
    right. split; [lia|]. intros j Hr. apply Hj. lia.
  - destruct (charCodeAt path i =? slash) eqn:Ec.
    + destruct Hinv as [[He Hm]|(Hm & Hlt & Hj)]; rewrite Hm; simpl.
      * apply IH. split; [done|]. by left.
      * right. simpl. split; [lia|]. intros j Hr. apply Hj. lia.
    + apply N.eqb_neq in Ec.
      destruct Hinv as [[He Hm]|(Hm & Hlt & Hj)].
      * rewrite He. simpl. apply IH. split; [done|]. right. simpl.
        split; [done|]. split; [lia|].
        intros j Hr. by replace j with i by lia.
      * destruct (b_end st =? -1)%Z eqn:E1.
        { apply Z.eqb_eq in E1. lia. }
        apply IH. split; [done|]. right.
        split; [done|]. split; [lia|]. intros j Hr.
        destruct (decide (j = i)) as [->|]; [done|]. apply Hj. lia.
Qed.

End BaseLoop.

(** The base name of a path holds no separator. *)
Lemma basename_no_slash (path : jsstring) :
  slash ∉ basename path None.
Proof.
  unfold basename.
  pose proof (base_loop_post path (length path)
                (BaseState 0 (-1) true (-1) (-1))) as H.
  destruct (b_end _ =? -1)%Z eqn:E; [apply not_elem_of_nil|].
  apply Z.eqb_neq in E.
  destruct H as [H|[H0 H]]; [split; [done | by left] | done |].
  intros Hin. apply elem_of_zslice in Hin as (j & Hr & Hc); [|done].
  by apply (H j).
Qed.

(** *** [extname] *)

Section ExtLoop.

Variable path : jsstring.

Lemma ext_inv_post (n : nat) (st : ext_state) : ext_inv path n st -> ext_post path st.
Proof.
  intros [[He Hs]|[Hr [[Hs Hd]|(Hs & Hc & Hd)]]].
  - by left.
  - by left.
  - right. right. repeat split; try done; lia.
Qed.

Lemma dot_free_extend (i : nat) (b : Z) :
  charCodeAt path i <> dot ->
  dot_free_between path (Z.of_nat (S i)) b ->
  dot_free_between path (Z.of_nat i) b.
Proof.
  intros Hi Hd j Hr. destruct (decide (j = i)) as [->|]; [done|].
  apply Hd. lia.
Qed.

Lemma dot_free_shrink (a a' b : Z) :
  (a <= a')%Z -> dot_free_between path a b -> dot_free_between path a' b.
Proof. intros Ha Hd j Hr. apply Hd. lia. Qed.

Lemma dot_free_empty (a b : Z) : (b <= a)%Z -> dot_free_between path a b.
Proof. intros Hab j Hr. lia. Qed.

Lemma ext_step_inv (i : nat) (st : ext_state) :
  (i < length path)%nat ->
  ext_inv path (S i) st ->
  ext_inv path i (ext_step i (charCodeAt path i) st).
Proof.
  intros Hi Hinv. unfold ext_step.
  destruct st as [sd sp e m pd]. unfold ext_inv in *. simpl in *.
  destruct (Z.eqb_spec e (-1)) as [He|He]; simpl.
  - destruct Hinv as [[_ Hs]|[Hr _]]; [|lia]. subst sd.
    destruct (N.eqb_spec (charCodeAt path i) dot) as [Hc|Hc]; simpl.
    + right. split; [lia|]. right. rewrite Nat2Z.id.
      split; [lia|]. split; [done|]. apply dot_free_empty. lia.
    + right. split; [lia|]. left. split; [done|].
      apply dot_free_extend; [done|]. apply dot_free_empty. lia.
  - destruct Hinv as [[He' _]|[Hr Hinv]]; [done|].
    destruct (N.eqb_spec (charCodeAt path i) dot) as [Hc|Hc].
    + destruct (Z.eqb_spec sd (-1)) as [Hs|Hs]; simpl.
      * right. split; [lia|]. right. rewrite Nat2Z.id.
        split; [lia|]. split; [done|].
        destruct Hinv as [[_ Hd]|[Hr' _]]; [|lia].
        eapply dot_free_shrink; [|exact Hd]. lia.
      * destruct Hinv as [[Hs' _]|(Hr' & Hc' & Hd)]; [done|].
        destruct (negb (pd =? 1)%Z); simpl;
          (right; split; [lia|]; right; split; [lia|]; done).
    + destruct (Z.eqb_spec sd (-1)) as [Hs|Hs]; simpl.
      * right. split; [lia|]. left. split; [done|].
        destruct Hinv as [[_ Hd]|[Hr' _]]; [|lia].
        by apply dot_free_extend.
      * destruct Hinv as [[Hs' _]|(Hr' & Hc' & Hd)]; [done|].
        right. split; [lia|]. right. split; [lia|]. done.
Qed.

Lemma ext_loop_post (n : nat) (st : ext_state) :
  (n <= length path)%nat ->
  ext_inv path n st -> ext_post path (ext_loop path n st).
Proof.
  revert st. induction n as [|i IH]; intros st Hn Hinv; simpl.
  - by apply (ext_inv_post 0).
  - destruct (charCodeAt path i =? slash) eqn:Ec.
    + destruct (negb (ext_matchedSlash st)).
      * apply ext_inv_post in Hinv. by destruct st.
      * apply IH; [lia|].
        destruct Hinv as [H|[Hr Hinv]]; [by left|]. right.
        apply N.eqb_eq in Ec.
        assert (Hnd : charCodeAt path i <> dot) by (by rewrite Ec).
        split; [lia|]. destruct Hinv as [[Hs Hd]|(Hr' & Hc & Hd)].
        -- left. split; [done|]. by apply dot_free_extend.
        -- right. split; [lia|]. done.
    + apply IH; [lia|]. apply ext_step_inv; [lia | done].
Qed.

End ExtLoop.

(** An extension is empty, or a dot followed by code units that are not
    dots. *)
Lemma extname_shape (path : jsstring) :
  extname path = []
  \/ exists r : jsstring, extname path = dot :: r /\ dot ∉ r.
Proof.
  unfold extname.
  pose proof (ext_loop_post path (length path) ext_init (le_n _)) as H.
  set (st := ext_loop path (length path) ext_init) in *.
  destruct (_ || _) eqn:E; [by left|]. right.
  repeat (apply orb_false_iff in E as [E ?]).
  apply Z.eqb_neq in E.
  destruct H as [H|[H|(Hr & Hl & Hc & Hd)]].
  - by left.
  - done.
  - by match goal with H : (ext_end st =? -1)%Z = false |- _ =>
         apply Z.eqb_neq in H end.
  - exists (zslice path (startDot st + 1) (ext_end st)).
    split.
    + rewrite zslice_head by lia. by rewrite Hc.
    + intros Hin. apply elem_of_zslice in Hin as (j & Hj & Hcj); [|lia].
      by apply (Hd j).
Qed.

(** *** Paths without separator *)

Lemma charCodeAt_elem (s : jsstring) (j : nat) :
  (j < length s)%nat -> charCodeAt s j ∈ s.
Proof.
  intros Hj. destruct (lookup_lt_is_Some_2 s j Hj) as [c Hc].
  rewrite (charCodeAt_lookup _ _ _ Hc). by eapply list_elem_of_lookup_2.
Qed.

Lemma charCodeAt_app_r (pre sfx : jsstring) (i : nat) :
  (length pre <= i)%nat ->
  charCodeAt (pre ++ sfx) i = charCodeAt sfx (i - length pre).
Proof. intros Hi. unfold charCodeAt. by apply app_nth2. Qed.

Lemma zslice_all (s : jsstring) (a : nat) :
  zslice s (Z.of_nat a) (Z.of_nat (length s)) = drop a s.
Proof.
  unfold zslice, slice. rewrite !Nat2Z.id.
  apply take_ge. rewrite length_drop. lia.
Qed.

Lemma zslice_prefix (s : jsstring) (b : nat) :
  zslice s 0 (Z.of_nat b) = take b s.
Proof.
  unfold zslice, slice. rewrite Nat2Z.id. simpl.
  by rewrite Nat.sub_0_r.
Qed.

Section Flat.

Variable path : jsstring.
Hypothesis flat : slash ∉ path.

Lemma flat_char (j : nat) :
  (j < length path)%nat -> (charCodeAt path j =? slash) = false.
Proof.
  intros Hj. apply N.eqb_neq. intros E. apply flat.
  rewrite <- E. by apply charCodeAt_elem.
Qed.

Lemma ext_flat_step (i : nat) (st : ext_state) :
  (i < length path)%nat ->
  ext_flat_inv path (S i) st ->
  ext_flat_inv path i (ext_step i (charCodeAt path i) st).
Proof.
  intros Hi Hinv. unfold ext_step, ext_flat_inv in *. right.
  destruct Hinv as [[Hn ->]|(Hn & He & Hinv)]; simpl.
  - destruct (charCodeAt path i =? dot); simpl.
    + split; [done|]. split; [lia|]. right. split; [lia | by left].
    + split; [done|]. split; [lia|]. by left.
  - rewrite He. destruct (Z.eqb_spec (Z.of_nat (length path)) (-1)); [lia|].
    destruct (charCodeAt path i =? dot).
    + destruct (Z.eqb_spec (startDot st) (-1)) as [Hs|Hs]; simpl.
      * split; [done|]. split; [done|]. right. split; [lia|].
        left. destruct Hinv as [[_ Hp]|[Hr _]]; [done | lia].
      * destruct Hinv as [[Hs' _]|[Hr Hp]]; [done|].
        destruct (negb (preDotState st =? 1)%Z); simpl;
          (split; [done|]; split; [done|]; right; split; [lia|]; right; lia).
    + destruct (Z.eqb_spec (startDot st) (-1)) as [Hs|Hs]; simpl.
      * split; [done|]. split; [done|]. left.
        destruct Hinv as [[_ Hp]|[Hr _]]; [done | lia].
      * destruct Hinv as [[Hs' _]|[Hr Hp]]; [done|].
        split; [done|]. split; [done|]. right. split; [lia|]. right. lia.
Qed.

Lemma ext_flat_loop (n : nat) (st : ext_state) :
  (n <= length path)%nat ->
  ext_flat_inv path n st -> ext_flat_inv path 0 (ext_loop path n st).
Proof.
  revert st. induction n as [|i IH]; intros st Hn Hinv; [done|].
  simpl. rewrite flat_char by lia.
  apply IH; [lia|]. apply ext_flat_step; [lia | done].
Qed.

(** Without separator, a non-empty extension is a proper end of the
    path. *)
Lemma extname_flat :
  extname path = []
  \/ exists k : nat, (0 < k < length path)%nat /\ extname path = drop k path.
Proof.
  unfold extname.
  pose proof (ext_flat_loop (length path) ext_init (le_n _)) as H.
  set (st := ext_loop path (length path) ext_init) in *.
  destruct (_ || _) eqn:E; [by left|]. right.
  repeat (apply orb_false_iff in E as [E ?]).
  apply Z.eqb_neq in E.
  match goal with H : (preDotState st =? 0)%Z = false |- _ =>
    apply Z.eqb_neq in H; rename H into Hp end.
  destruct H as [[_ Hst]|(Hn & He & [[Hs _]|[Hr Hpre]])].
  - by left.
  - by rewrite Hst in E.
  - done.
  - exists (Z.to_nat (startDot st)). split; [lia|].
    rewrite He, <- zslice_all. by rewrite Z2Nat.id by lia.
Qed.

Lemma base_flat_loop (n : nat) :
  (n <= length path)%nat ->
  base_loop path n (base_flat_state (length path) n)
  = base_flat_state (length path) 0.
Proof.
  induction n as [|i IH]; intros Hn; [done|].
  simpl. rewrite flat_char by lia.
  rewrite <- IH by lia. unfold base_flat_state.
  destruct (Nat.eqb_spec (S i) (length path)) as [E|E]; simpl.
  - destruct (Nat.eqb_spec i (length path)); [lia|]. by rewrite <- E, Nat2Z.inj_succ, Z.add_1_r.
  - destruct (Z.eqb_spec (Z.of_nat (length path)) (-1)); [lia|].
    by destruct (Nat.eqb_spec i (length path)); [lia|].
Qed.

(** Without separator and without suffix the base name is the path. *)
Lemma base_flat_result :
  (let st := base_loop path (length path) (BaseState 0 (-1) true (-1) (-1)) in
   if (b_end st =? -1)%Z then [] else zslice path (b_start st) (b_end st))
  = path.
Proof.
  pose proof (base_flat_loop (length path) (le_n _)) as H.
  unfold base_flat_state at 1 in H. rewrite Nat.eqb_refl in H.
  cbv zeta. rewrite H. unfold base_flat_state.
  destruct (Nat.eqb_spec 0 (length path)) as [E|E]; simpl.
  - symmetry. by apply nil_length_inv.
  - destruct (Z.eqb_spec (Z.of_nat (length path)) (-1)); [lia|].
    rewrite zslice_prefix. by apply take_ge.
Qed.

End Flat.

Lemma basename_flat (path : jsstring) (suffix : option jsstring) :
  slash ∉ path -> (suffix = None \/ suffix = Some []) ->
  basename path suffix = path.
Proof.
  intros Hf [->| ->]; unfold basename; simpl; by apply base_flat_result.
Qed.

(** With a suffix that the path ends with, and no separator, the loop
    runs through the suffix and marks the end of the name where the
    suffix starts. *)
Lemma suffix_flat_loop (pre sfx : jsstring) (n : nat) :
  slash ∉ pre ++ sfx -> pre <> [] -> sfx <> [] ->
  (n <= length (pre ++ sfx))%nat ->
  suffix_loop (pre ++ sfx) sfx n
    (suffix_state (length pre) (length (pre ++ sfx)) n)
  = suffix_state (length pre) (length (pre ++ sfx)) 0.
Proof.
  intros Hf Hpre Hsfx.
  assert (HP : (0 < length pre)%nat) by (destruct pre; [done | simpl; lia]).
  assert (HS : (0 < length sfx)%nat) by (destruct sfx; [done | simpl; lia]).
  set (P := length pre). set (L := length (pre ++ sfx)).
  assert (HL : L = (P + length sfx)%nat) by (subst L P; apply length_app).
  induction n as [|i IH]; intros Hn; [done|].
  cbn [suffix_loop]. rewrite (flat_char _ Hf) by (fold L; lia).
  rewrite <- IH by lia. f_equal.
  unfold suffix_state, suffix_step.
  destruct (Nat.eqb_spec (S i) L) as [E|E].
  - (* the last code unit *)
    cbn [b_start b_end b_matchedSlash extIdx firstNonSlashEnd].
    change (-1 =? -1)%Z with true. cbv iota. cbn [b_start b_end b_matchedSlash extIdx firstNonSlashEnd].
    rewrite charCodeAt_app_r by (fold P; lia). fold P.
    destruct (Z.leb_spec 0 (Z.of_nat (L - P) - 1)); [|lia].
    replace (Z.to_nat (Z.of_nat (L - P) - 1)) with (i - P)%nat by lia.
    destruct (N.eqb_spec (charCodeAt sfx (i - P)) (charCodeAt sfx (i - P)))
      as [_|Hne]; [|done].
    destruct (Nat.eqb_spec i L); [lia|].
    destruct (Z.eqb_spec (Z.of_nat (L - P) - 1 - 1) (-1)) as [E1|E1].
    + destruct (Nat.ltb_spec P i); [lia|]. f_equal; lia.
    + destruct (Nat.ltb_spec P i); [|lia]. f_equal; lia.
  - destruct (Nat.ltb_spec P (S i)) as [Hlt|Hge];
      cbn [b_start b_end b_matchedSlash extIdx firstNonSlashEnd].
    + (* inside the suffix *)
      destruct (Z.eqb_spec (Z.of_nat L) (-1)); [lia|].
      cbn [b_start b_end b_matchedSlash extIdx firstNonSlashEnd].
      destruct (Z.leb_spec 0 (Z.of_nat (S i) - Z.of_nat P - 1)); [|lia].
      rewrite charCodeAt_app_r by (fold P; lia). fold P.
      replace (Z.to_nat (Z.of_nat (S i) - Z.of_nat P - 1)) with (i - P)%nat
        by lia.
      destruct (N.eqb_spec (charCodeAt sfx (i - P)) (charCodeAt sfx (i - P)))
      as [_|Hne]; [|done].
      destruct (Nat.eqb_spec i L); [lia|].
      destruct (Z.eqb_spec (Z.of_nat (S i) - Z.of_nat P - 1 - 1) (-1))
        as [E1|E1].
      * destruct (Nat.ltb_spec P i); [lia|]. f_equal; lia.
      * destruct (Nat.ltb_spec P i); [|lia]. f_equal; lia.
    + (* before the suffix *)
      destruct (Z.eqb_spec (Z.of_nat L) (-1)); [lia|].
      cbn [b_start b_end b_matchedSlash extIdx firstNonSlashEnd].
      destruct (Z.leb_spec 0 (-1)); [lia|].
      destruct (Nat.eqb_spec i L); [lia|].
      by destruct (Nat.ltb_spec P i); [lia|].
Qed.

Lemma basename_strip (pre sfx : jsstring) :
  slash ∉ pre ++ sfx -> pre <> [] -> sfx <> [] ->
  basename (pre ++ sfx) (Some sfx) = pre.
Proof.
  intros Hf Hpre Hsfx. unfold basename.
  assert (HP : (0 < length pre)%nat) by (destruct pre; [done | simpl; lia]).
  replace (truthy sfx) with true by (by destruct sfx).
  replace (length sfx <=? length (pre ++ sfx))%nat with true
    by (symmetry; apply Nat.leb_le; rewrite length_app; lia).
  simpl andb. cbv iota.
  replace (str_eqb sfx (pre ++ sfx)) with false.
  2:{ symmetry. apply bool_decide_eq_false. intros E.
      apply (f_equal length) in E. rewrite length_app in E. lia. }
  pose proof (suffix_flat_loop pre sfx (length (pre ++ sfx)) Hf Hpre Hsfx
                (le_n _)) as H.
  unfold suffix_state at 1 in H. rewrite Nat.eqb_refl in H.
  replace (length (pre ++ sfx) - length pre)%nat with (length sfx) in H
    by (rewrite length_app; lia).
  rewrite H. unfold suffix_state.
  destruct (Nat.eqb_spec 0 (length (pre ++ sfx))) as [E|E].
  { rewrite length_app in E. lia. }
  destruct (Nat.ltb_spec (length pre) 0); [lia|].
  cbn [b_start b_end b_matchedSlash extIdx firstNonSlashEnd].
  destruct (Z.eqb_spec 0 (Z.of_nat (length pre))); [lia|].
  destruct (Z.eqb_spec (Z.of_nat (length pre)) (-1)); [lia|].
  rewrite zslice_prefix. by rewrite take_app_length.
Qed.

(** For a name without separator, [basename(name, extname(name))] is
    the name with exactly its extension taken off its end. *)
Lemma stem_extension (name : jsstring) :
  slash ∉ name ->
  basename name (Some (extname name)) ++ extname name = name.
Proof.
  intros Hf. destruct (extname_flat name Hf) as [E|(k & Hk & E)].
  - rewrite E, app_nil_r. apply basename_flat; [done | by right].
  - rewrite E.
    rewrite <- (take_drop k name) at 1.
    rewrite basename_strip.
    + apply take_drop.
    + by rewrite take_drop.
    + intros E0. apply (f_equal length) in E0.
      rewrite length_take in E0. simpl in E0. lia.
    + intros E0. apply (f_equal length) in E0.
      rewrite length_drop in E0. simpl in E0. lia.
Qed.

End PathFacts.

(** ** The allow-list and the namer *)

Module NamerFacts.

Import Path Namer.

Lemma str_eqb_eq (a b : jsstring) : str_eqb a b = true <-> a = b.
Proof. unfold str_eqb. apply bool_decide_eq_true. Qed.

(** No name that [Object.prototype] provides has the form of a MIME
    type. *)
Lemma mime_type_not_inherited (m : jsstring) :
  is_mime_type m = true ->
  existsb (str_eqb m) object_prototype_names = false.
Proof.
  intros Hm. apply not_true_is_false. intros H.
  apply existsb_exists in H as (k & Hk & E).
  apply str_eqb_eq in E. subst k.
  unfold object_prototype_names in Hk. simpl in Hk.
  repeat (destruct Hk as [<-|Hk]; [vm_compute in Hm; discriminate Hm|]).
  done.
Qed.

(** For a MIME type, [ALLOWED[m]] is the table's own entry or
    [undefined]. *)
Lemma ALLOWED_mime_type (m : jsstring) :
  is_mime_type m = true ->
  ALLOWED m = match own_property ALLOWED_entries m with
              | Some e => VStr e
              | None => VUndefined
              end.
Proof.
  intros Hm. unfold ALLOWED.
  by rewrite (mime_type_not_inherited _ Hm).
Qed.

(** The table's own entries: exactly the four types of the allow-list,
    each with a non-empty extension that starts with its only dot. *)
Lemma own_property_cases (m e : jsstring) :
  own_property ALLOWED_entries m = Some e ->
  (m = lit "image/jpeg" /\ e = lit ".jpg")
  \/ (m = lit "image/png" /\ e = lit ".png")
  \/ (m = lit "image/gif" /\ e = lit ".gif")
  \/ (m = lit "video/mp4" /\ e = lit ".mp4").
Proof.
  unfold ALLOWED_entries. cbn [own_property].
  repeat (destruct (str_eqb _ m) eqn:E;
          [apply str_eqb_eq in E; subst m; intros [= <-]; tauto | clear E]).
  done.
Qed.

Lemma own_property_allow_list (m : jsstring) :
  m ∈ allow_list <-> is_Some (own_property ALLOWED_entries m).
Proof.
  split.
  - unfold allow_list. rewrite !elem_of_cons, elem_of_nil.
    intros [->|[->|[->|[->|[]]]]]; by eexists.
  - intros [e He]. apply own_property_cases in He.
    unfold allow_list. rewrite !elem_of_cons.
    destruct He as [[-> _]|[[-> _]|[[-> _]|[-> _]]]]; tauto.
Qed.

Lemma own_property_mime_type (m e : jsstring) :
  own_property ALLOWED_entries m = Some e -> is_mime_type m = true.
Proof.
  intros He. apply own_property_cases in He.
  by destruct He as [[-> _]|[[-> _]|[[-> _]|[-> _]]]].
Qed.

Lemma own_property_shape (m e : jsstring) :
  own_property ALLOWED_entries m = Some e ->
  exists r, e = dot :: r /\ dot ∉ r.
Proof.
  intros He. apply own_property_cases in He.
  destruct He as [[_ ->]|[[_ ->]|[[_ ->]|[_ ->]]]];
    (eexists; split; [reflexivity|]);
    rewrite !elem_of_cons, elem_of_nil; vm_compute; intuition discriminate.
Qed.

Lemma own_property_truthy (m e : jsstring) :
  own_property ALLOWED_entries m = Some e -> truthy e = true.
Proof. intros He. by apply own_property_shape in He as (r & -> & _). Qed.

(** [originalname || "file"] changes neither the extension nor the base
    that the algorithm finds. *)
Lemma extname_orig (name : jsstring) :
  extname (or_str name (lit "file")) = extname name.
Proof. by destruct name. Qed.

Lemma vor_truthy (a b : value) : vtruthy a = true -> vor a b = a.
Proof. unfold vor. by intros ->. Qed.

Lemma vor_falsy (a b : value) : vtruthy a = false -> vor a b = b.
Proof. unfold vor. by intros ->. Qed.

Lemma base_spec (file : part) : base file = spec_base (originalname file).
Proof.
  unfold base, spec_base. by destruct (originalname file).
Qed.

Lemma extension_spec (file : part) :
  is_mime_type (mimetype file) = true ->
  to_string (extension file)
  = spec_extension (originalname file) (mimetype file).
Proof.
  intros Hm. unfold extension, spec_extension.
  rewrite extname_orig, (ALLOWED_mime_type _ Hm).
  destruct (truthy (extname (originalname file))) eqn:Ee.
  - rewrite !(vor_truthy (VStr _)) by done. simpl. by rewrite Ee.
  - destruct (extname (originalname file)); [|done].
    destruct (own_property ALLOWED_entries (mimetype file)) as [e|] eqn:Eo.
    + pose proof (own_property_truthy _ _ Eo) as Ht.
      rewrite !(vor_falsy (VStr [])) by done.
      rewrite !(vor_truthy (VStr e)) by done. simpl. by rewrite Ht.
    + done.
Qed.

(** C9. For every original filename and every declared MIME type (a
    string of the form type/subtype), the namer returns a non-empty
    name, and that name is the one the stated algorithm gives: the
    extension of the original filename if it has one, else the entry of
    the MIME table if there is one, else nothing; the sanitized file name
    without its extension, or ["file"] when that is empty; composed as
    base, underscore, identifier, extension.  For an original filename
    without separator, the file name without its extension is that name
    with exactly the extension taken off its end. *)
Theorem filename_follows_algorithm (file : part) (id : jsstring) :
  is_mime_type (mimetype file) = true ->
  filename file id = spec_filename (originalname file) (mimetype file) id
  /\ filename file id <> []
  /\ (slash ∉ originalname file ->
      basename (originalname file) (Some (extname (originalname file)))
      ++ extname (originalname file) = originalname file).
Proof.
  intros Hm. unfold filename, spec_filename.
  rewrite base_spec, (extension_spec _ Hm). split; [done|]. split.
  - intros E. apply (f_equal length) in E.
    rewrite !length_app in E. simpl in E. lia.
  - apply PathFacts.stem_extension.
Qed.

Lemma filename_follows_algorithm_witness :
  filename (Part (lit "file") (lit "my photo.png") (lit "image/png") 1024)
           (lit "1b9d6bcd-bbfd-4b2d-9b5d-ab8dfbbd4bed")
  = lit "my_photo_1b9d6bcd-bbfd-4b2d-9b5d-ab8dfbbd4bed.png".
Proof.
  pose proof (filename_follows_algorithm
    (Part (lit "file") (lit "my photo.png") (lit "image/png") 1024)
    (lit "1b9d6bcd-bbfd-4b2d-9b5d-ab8dfbbd4bed") eq_refl) as (H & _ & _).
  rewrite H. vm_compute. reflexivity.
Defined.

(** C2, as the specification states it, fails: a part declared
    [image/png] whose original name is [a.txt] is stored under a name
    that ends in [.txt], not in the [.png] of the table. *)
Lemma filename_keeps_foreign_extension :
  lit "image/png" ∈ allow_list
  /\ own_property ALLOWED_entries (lit "image/png") = Some (lit ".png")
  /\ filename (Part (lit "file") (lit "a.txt") (lit "image/png") 1)
              (lit "1b9d6bcd-bbfd-4b2d-9b5d-ab8dfbbd4bed")
     = lit "a_1b9d6bcd-bbfd-4b2d-9b5d-ab8dfbbd4bed.txt"
  /\ ~ lit ".png" `suffix_of`
       filename (Part (lit "file") (lit "a.txt") (lit "image/png") 1)
                (lit "1b9d6bcd-bbfd-4b2d-9b5d-ab8dfbbd4bed").
Proof.
  split; [apply own_property_allow_list; by eexists|].
  split; [reflexivity|].
  split; [by vm_compute|].
  intros [k Hk]. apply (f_equal (fun l => reverse l)) in Hk.
  rewrite reverse_app in Hk. vm_compute in Hk. discriminate Hk.
Qed.

(** C2, amended.  For a part whose declared MIME type is in the
    allow-list, the stored name ends with the extension of the original
    filename when that has one, and with the table's extension for the
    MIME type when it has none. *)
Theorem filename_extension (file : part) (id : jsstring) :
  mimetype file ∈ allow_list ->
  exists e : jsstring,
    own_property ALLOWED_entries (mimetype file) = Some e
    /\ (extname (originalname file) <> [] ->
        extname (originalname file) `suffix_of` filename file id)
    /\ (extname (originalname file) = [] -> e `suffix_of` filename file id).
Proof.
  intros Hm. apply own_property_allow_list in Hm as [e He]. exists e.
  split; [done|].
  pose proof (own_property_mime_type _ _ He) as Hmt.
  unfold filename. rewrite (extension_spec _ Hmt). unfold spec_extension.
  rewrite He. split.
  - intros Hx. destruct (extname (originalname file)) eqn:E; [done|].
    simpl truthy. cbv iota. rewrite !app_assoc. by eexists.
  - intros ->. simpl truthy. cbv iota. rewrite !app_assoc. by eexists.
Qed.

Lemma filename_extension_witness :
  exists e : jsstring,
    own_property ALLOWED_entries (lit "image/gif") = Some e
    /\ (extname (lit "clip") <> [] ->
        extname (lit "clip")
        `suffix_of` filename (Part (lit "files") (lit "clip") (lit "image/gif") 7)
                             (lit "1b9d6bcd-bbfd-4b2d-9b5d-ab8dfbbd4bed"))
    /\ (extname (lit "clip") = [] ->
        e `suffix_of` filename (Part (lit "files") (lit "clip") (lit "image/gif") 7)
                               (lit "1b9d6bcd-bbfd-4b2d-9b5d-ab8dfbbd4bed")).
Proof.
  apply (filename_extension
           (Part (lit "files") (lit "clip") (lit "image/gif") 7)
           (lit "1b9d6bcd-bbfd-4b2d-9b5d-ab8dfbbd4bed")).
  apply own_property_allow_list. by eexists.
Defined.

End NamerFacts.

(** ** Deleting a file *)

Module DeleteFacts.

Import Path AuthFacts.

Lemma unlink_ok_delete (o : os) (d d' : gmap jsstring entry) (name : jsstring) :
  unlink o d name = inr d' ->
  d' = delete name d
  /\ names_directory name = false /\ unlink_fault o name = None.
Proof.
  unfold unlink. destruct (names_directory name); [done|].
  destruct (unlink_fault o name); [done|].
  destruct (d !! name) as [e|]; [|done].
  destruct (e_kind e); intros [= <-]; done.
Qed.

Lemma unlink_other (o : os) (d d' : gmap jsstring entry) (name n : jsstring) :
  unlink o d name = inr d' -> n <> name -> d' !! n = d !! n.
Proof.
  intros H Hn. apply unlink_ok_delete in H as (-> & _ & _).
  by apply lookup_delete_ne.
Qed.

(** Deleting what was just deleted reports that the file is missing. *)
Lemma unlink_again (o : os) (d d' : gmap jsstring entry) (name : jsstring) :
  unlink o d name = inr d' -> unlink o d' name = inl (ENOENT name).
Proof.
  intros H. apply unlink_ok_delete in H as (-> & Hn & Hf).
  unfold unlink. by rewrite Hn, Hf, lookup_delete_eq.
Qed.

Lemma unlink_missing (o : os) (d : gmap jsstring entry) (name : jsstring) :
  names_directory name = false -> unlink_fault o name = None ->
  d !! name = None ->
  unlink o d name = inl (ENOENT name).
Proof. intros Hn Hf Hd. unfold unlink. by rewrite Hn, Hf, Hd. Qed.

(** C6. With a valid bearer token, [DELETE /files/:name] works on the
    base name of the parameter only: that name holds no separator, and no
    other entry of the storage directory changes.  An error of [unlink]
    whose code is not [ENOENT] gives 500 with the error's message and
    leaves the directory as it was; in every other case the answer is 200
    with [{ deleted: true, name }], in particular when the file does not
    exist, and then the same request a second time gets the same
    answer. *)
Theorem delete_contract (cfg : config) (o : os) (req : request) (w : world) :
  authorized cfg req ->
  let name := basename (param_name req) None in
  let resp := (delete_file cfg o req w).1 in
  let w' := (delete_file cfg o req w).2 in
  (slash ∉ name)
  /\ (forall n : jsstring, n <> name -> dir w' !! n = dir w !! n)
  /\ (forall err : fs_error,
        unlink o (dir w) name = inl err -> code err <> lit "ENOENT" ->
        resp = Response 500 (JsonError (message err)) /\ w' = w)
  /\ ((forall err : fs_error,
         unlink o (dir w) name = inl err -> code err = lit "ENOENT") ->
      resp = Response 200 (JsonDeleted name))
  /\ (names_directory name = false -> unlink_fault o name = None ->
      dir w !! name = None ->
      resp = Response 200 (JsonDeleted name) /\ w' = w)
  /\ (resp = Response 200 (JsonDeleted name) ->
      delete_file cfg o req w' = (Response 200 (JsonDeleted name), w')).
Proof.
  intros Hauth name resp w'. subst resp w'. unfold delete_file.
  rewrite (proj2 (requireBearer_next cfg req) Hauth).
  fold name.
  split; [apply PathFacts.basename_no_slash|].
  destruct (unlink o (dir w) name) as [err|d'] eqn:Eu.
  - destruct (str_eqb (code err) (lit "ENOENT")) eqn:Ec; simpl.
    + apply NamerFacts.str_eqb_eq in Ec.
      split; [done|]. split; [by intros ? [= <-] ?|].
      split; [done|]. split; [done|].
      intros _. by rewrite Eu, Ec.
    + assert (Hc : code err <> lit "ENOENT").
      { intros E. apply NamerFacts.str_eqb_eq in E. congruence. }
      split; [done|]. split; [by intros ? [= <-] ?|].
      split; [intros H; by specialize (H err eq_refl)|].
      split; [|done].
      intros Hn Hf Hd. rewrite (unlink_missing _ _ _ Hn Hf Hd) in Eu.
      inversion Eu; subst err. done.
  - simpl. split; [intros n Hn; by apply (unlink_other o _ _ name)|].
    split; [done|]. split; [done|].
    split.
    + intros Hn Hf Hd. by rewrite (unlink_missing _ _ _ Hn Hf Hd) in Eu.
    + intros _. by rewrite (unlink_again _ _ _ _ Eu).
Qed.

Lemma delete_contract_witness :
  delete_file Sample.cfg Sample.quiet
              (Sample.deletion (lit "../nonexistent.png")) Sample.empty_world
  = (Response 200 (JsonDeleted (lit "nonexistent.png")), Sample.empty_world).
Proof.
  pose proof (delete_contract Sample.cfg Sample.quiet
                (Sample.deletion (lit "../nonexistent.png"))
                Sample.empty_world (sample_deletion_authorized _)) as H.
  cbv zeta in H. destruct H as (_ & _ & _ & _ & H & _).
  destruct H as [H1 H2]; [by vm_compute..|].
  rewrite (surjective_pairing (delete_file _ _ _ _)), H1, H2.
  by vm_compute.
Defined.

End DeleteFacts.

(** ** The retention sweep *)

Module SweepFacts.

Import DeleteFacts.

Section Sweep.

Variable o : os.
Variable now : Z.
Variable maxAgeMs : Z.

Hypothesis stat_ok : forall n : jsstring, stat_fault o n = None.

(** What the loop does with one regular file that is past the age. *)
Lemma sweep_unlink_lookup (d : gmap jsstring entry) (name x : jsstring) :
  (forall e, d !! name = Some e -> e_kind e <> Directory) ->
  match unlink o d name with inl _ => d | inr d' => d' end !! x
  = if decide (x = name /\ unlink_refused o name = false)
    then None else d !! x.
Proof.
  intros Hkind. unfold unlink_refused.
  destruct (unlink o d name) as [err|d'] eqn:Eu.
  - case_decide as H; [|done]. destruct H as (-> & H).
    apply orb_false_iff in H as [Hn Hf].
    unfold unlink in Eu. rewrite Hn in Eu.
    destruct (unlink_fault o name); [done|].
    destruct (d !! name) as [e|] eqn:Ed; [|done].
    specialize (Hkind e eq_refl). by destruct (e_kind e).
  - apply unlink_ok_delete in Eu as (-> & Hn & Hf). rewrite Hn, Hf. simpl.
    case_decide as H.
    + destruct H as (-> & _). apply lookup_delete_eq.
    + apply lookup_delete_ne. intros <-. by apply H.
Qed.

Lemma is_due_agree (d1 d2 : gmap jsstring entry) (x : jsstring) :
  d1 !! x = d2 !! x -> is_due d1 now maxAgeMs x = is_due d2 now maxAgeMs x.
Proof. unfold is_due. by intros ->. Qed.

(** The loop over entries that are all still in the directory: it ends
    without error, calls [unlink] on the due entries and on nothing else,
    and removes those of them that the system does not refuse. *)
Lemma sweep_entries_spec (entries : list (jsstring * kind)) (s : sweep) :
  NoDup entries.*1 ->
  (forall name k, (name, k) ∈ entries ->
     exists e, sw_dir s !! name = Some e /\ e_kind e = k) ->
  exists s',
    sweep_entries o now maxAgeMs entries s = (s', None)
    /\ (forall x, x ∈ unlinked s' <->
          x ∈ unlinked s
          \/ (is_due (sw_dir s) now maxAgeMs x = true /\ x ∈ entries.*1))
    /\ (forall x,
          sw_dir s' !! x
          = if decide (is_due (sw_dir s) now maxAgeMs x = true
                       /\ x ∈ entries.*1 /\ unlink_refused o x = false)
            then None else sw_dir s !! x).
Proof.
  revert s. induction entries as [|[name k] rest IH]; intros s Hnd Hent.
  - exists s. split; [done|]. split.
    + intros x. rewrite fmap_nil, elem_of_nil. tauto.
    + intros x. case_decide as H; [|done].
      destruct H as (_ & H & _). by apply elem_of_nil in H.
  - rewrite fmap_cons in Hnd. apply NoDup_cons in Hnd as [Hname Hnd].
    simpl in Hname.
    destruct (Hent name k) as (e & He & Hk); [by left|].
    assert (Hrest : forall s1 : sweep,
              (forall x, x <> name -> sw_dir s1 !! x = sw_dir s !! x) ->
              forall n' k', (n', k') ∈ rest ->
              exists e', sw_dir s1 !! n' = Some e' /\ e_kind e' = k').
    { intros s1 Hs1 n' k' Hin.
      destruct (Hent n' k') as (e' & He' & Hk'); [by right|].
      exists e'. split; [|done]. rewrite Hs1; [done|].
      intros ->. apply Hname. apply list_elem_of_fmap. by exists (name, k'). }
    assert (Hdue : forall s1 : sweep,
              (forall x, x <> name -> sw_dir s1 !! x = sw_dir s !! x) ->
              forall x, x ∈ rest.*1 ->
              is_due (sw_dir s1) now maxAgeMs x
              = is_due (sw_dir s) now maxAgeMs x).
    { intros s1 Hs1 x Hx. apply is_due_agree, Hs1. by intros ->. }
    assert (Hdn : is_due (sw_dir s) now maxAgeMs name
                  = isFile k && (maxAgeMs <? now - mtimeMs e)%Z).
    { unfold is_due. by rewrite He, Hk. }
    assert (Hstep : exists s1,
              sweep_entries o now maxAgeMs ((name, k) :: rest) s
              = sweep_entries o now maxAgeMs rest s1
              /\ (forall x, x ∈ unlinked s1 <->
                    x ∈ unlinked s
                    \/ (is_due (sw_dir s) now maxAgeMs x = true /\ x = name))
              /\ (forall x,
                    sw_dir s1 !! x
                    = if decide (is_due (sw_dir s) now maxAgeMs x = true
                                 /\ x = name /\ unlink_refused o x = false)
                      then None else sw_dir s !! x)).
    { simpl. destruct (isFile k) eqn:Ef; simpl.
      - unfold stat. rewrite stat_ok, He.
        destruct (maxAgeMs <? now - mtimeMs e)%Z eqn:Eold.
        + eexists. split; [reflexivity|]. simpl. split.
          * intros x. rewrite elem_of_app, list_elem_of_singleton.
            split; [intros [?| ->]; tauto | intros [?|[_ ->]]; tauto].
          * intros x.
            rewrite sweep_unlink_lookup
              by (intros e0 He0; rewrite He in He0; injection He0 as <-;
                  rewrite Hk; by destruct k).
            repeat case_decide; try done; exfalso.
            -- destruct H as [-> ?]. tauto.
            -- destruct H0 as (? & -> & ?). tauto.
        + exists s. split; [done|]. split.
          * intros x. split; [tauto|]. intros [?|[Hx ->]]; [done|].
            simpl in Hdn; congruence.
          * intros x. case_decide as H; [|done].
            destruct H as (Hx & -> & _). simpl in Hdn; congruence.
      - exists s. split; [done|]. split.
        + intros x. split; [tauto|]. intros [?|[Hx ->]]; [done|].
          simpl in Hdn; congruence.
        + intros x. case_decide as H; [|done].
          destruct H as (Hx & -> & _). simpl in Hdn; congruence. }
    destruct Hstep as (s1 & -> & Hun1 & Hdir1).
    assert (Hs1 : forall x, x <> name -> sw_dir s1 !! x = sw_dir s !! x).
    { intros x Hx. rewrite Hdir1. case_decide as H; [|done].
      by destruct H as (_ & ? & _). }
    destruct (IH s1 Hnd (Hrest s1 Hs1)) as (s' & Hrun & Hun & Hdir).
    exists s'. split; [done|]. split.
    + intros x. rewrite Hun, Hun1, fmap_cons, elem_of_cons. simpl. split.
      * intros [[?|[? ->]]|[Hd Hx]]; [tauto | tauto |].
        rewrite (Hdue s1 Hs1 x Hx) in Hd. tauto.
      * intros [?|[Hd [-> |Hx]]]; [tauto | tauto |].
        rewrite <- (Hdue s1 Hs1 x Hx) in Hd. tauto.
    + intros x. rewrite Hdir.
      assert (Hm : x ∈ ((name, k) :: rest).*1 <-> x = name \/ x ∈ rest.*1).
      { rewrite fmap_cons, elem_of_cons. done. }
      destruct (decide (x ∈ rest.*1)) as [Hx|Hx].
      * rewrite (Hdue s1 Hs1 x Hx).
        assert (x <> name) by (by intros ->).
        rewrite (Hs1 x) by done.
        repeat case_decide; try done; exfalso; tauto.
      * rewrite Hdir1. repeat case_decide; try done; exfalso; tauto.
Qed.

End Sweep.

Lemma is_due_true (d : gmap jsstring entry) (now maxAgeMs : Z) (x : jsstring) :
  is_due d now maxAgeMs x = true
  <-> exists e : entry,
        d !! x = Some e /\ e_kind e = RegularFile
        /\ (maxAgeMs < now - mtimeMs e)%Z.
Proof.
  unfold is_due. destruct (d !! x) as [e|].
  - rewrite andb_true_iff, Z.ltb_lt. split.
    + intros [Hk Hlt]. exists e. by destruct (e_kind e).
    + intros (e' & [= <-] & Hk & Hlt). by rewrite Hk.
  - split; [done | by intros (e & ? & _)].
Qed.

Lemma readdir_entries (d : gmap jsstring entry) :
  let entries := (fun ne : jsstring * entry => (ne.1, e_kind ne.2))
                   <$> map_to_list d in
  NoDup entries.*1
  /\ (forall name k, (name, k) ∈ entries ->
        exists e, d !! name = Some e /\ e_kind e = k)
  /\ (forall x, x ∈ entries.*1 <-> is_Some (d !! x)).
Proof.
  intros entries.
  assert (E : entries.*1 = (map_to_list d).*1).
  { subst entries. rewrite <- list_fmap_compose. by apply list_fmap_ext. }
  rewrite E. split; [apply NoDup_fst_map_to_list|]. split.
  - intros name k Hin. apply list_elem_of_fmap in Hin as ([n e] & [= -> ->] & Hin).
    apply elem_of_map_to_list in Hin. by exists e.
  - intros x. rewrite list_elem_of_fmap. split.
    + intros ([n e] & -> & Hin). apply elem_of_map_to_list in Hin. by exists e.
    + intros [e He]. exists (x, e). split; [done|].
      by apply elem_of_map_to_list.
Qed.

(** C7. One firing of the sweep, when the directory can be listed and
    its files examined: [unlink] is called on an entry exactly when it is
    a regular file (not a link, not a subdirectory) whose age, now minus
    its modification time, is strictly above [MAX_AGE_HOURS] hours; this
    holds for every entry whatever deletions fail, the sweep ends without
    error, and what leaves the directory is exactly the entries unlinked
    without refusal, the others staying as they were.  A file exactly at
    the threshold stays; a file one millisecond older is unlinked. *)
Theorem sweep_contract (cfg : config) (o : os) (now : Z)
    (d : gmap jsstring entry) :
  readdir_fault o = None ->
  (forall n : jsstring, stat_fault o n = None) ->
  let maxAgeMs := (MAX_AGE_HOURS cfg * 60 * 60 * 1000)%Z in
  let s := (cleanOldFiles cfg o now d).1 in
  (forall x : jsstring,
     x ∈ unlinked s
     <-> exists e : entry,
           d !! x = Some e /\ e_kind e = RegularFile
           /\ (maxAgeMs < now - mtimeMs e)%Z)
  /\ (forall x : jsstring,
        sw_dir s !! x
        = if decide (x ∈ unlinked s /\ unlink_refused o x = false)
          then None else d !! x)
  /\ (forall l : jsstring, LogError l ∉ (cleanOldFiles cfg o now d).2)
  /\ (forall (x : jsstring) (e : entry),
        d !! x = Some e -> (now - mtimeMs e = maxAgeMs)%Z ->
        (x ∉ unlinked s) /\ sw_dir s !! x = Some e)
  /\ (forall (x : jsstring) (e : entry),
        d !! x = Some e -> e_kind e = RegularFile ->
        (now - mtimeMs e = maxAgeMs + 1)%Z ->
        x ∈ unlinked s).
Proof.
  intros Hr Hs maxAgeMs s.
  assert (Hsw : (forall x, x ∈ unlinked s
                   <-> is_due d now maxAgeMs x = true)
                /\ (forall x, sw_dir s !! x
                     = if decide (x ∈ unlinked s /\ unlink_refused o x = false)
                       then None else d !! x)
                /\ (forall l, LogError l ∉ (cleanOldFiles cfg o now d).2)).
  { subst s. unfold cleanOldFiles, readdir. rewrite Hr. fold maxAgeMs.
    destruct (readdir_entries d) as (Hnd & Hent & Hdom).
    destruct (sweep_entries_spec o now maxAgeMs Hs _ (Sweep d 0 []) Hnd Hent)
      as (s' & -> & Hun & Hdir).
    simpl in *.
    assert (Hun' : forall x, x ∈ unlinked s' <-> is_due d now maxAgeMs x = true).
    { intros x. rewrite Hun, Hdom, elem_of_nil. split.
      - intros [[]|[? _]]. done.
      - intros Hd. right. split; [done|].
        apply is_due_true in Hd as (e & He & _). by exists e. }
    split; [done|]. split.
    - intros x. rewrite Hdir.
      repeat case_decide; try done; exfalso.
      + destruct H as (Hd & _ & Href). apply H0. by rewrite Hun'.
      + destruct H0 as (Hd & Href). apply H. rewrite <- Hun'.
        split; [done|]. split; [|done]. apply Hdom.
        apply Hun', is_due_true in Hd as (e & He & _). by exists e.
    - intros l. destruct (0 <? removed s')%nat;
        rewrite ?elem_of_cons, elem_of_nil; intros H; by intuition. }
  destruct Hsw as (Hun & Hdir & Hlog).
  split; [intros x; by rewrite Hun, is_due_true|].
  split; [done|]. split; [done|]. split.
  - intros x e He Hage.
    assert (Hn : x ∉ unlinked s).
    { rewrite Hun, is_due_true. intros (e' & He' & _ & Hlt).
      rewrite He in He'. inversion He'; subst e'. lia. }
    split; [done|]. rewrite Hdir. case_decide as H; [|done].
    by destruct H.
  - intros x e He Hk Hage. rewrite Hun, is_due_true.
    exists e. split; [done|]. split; [done|]. lia.
Qed.

Lemma sweep_contract_witness :
  lit "old.png" ∈ unlinked (cleanOldFiles Sample.cfg Sample.stubborn
                              Sample.now Sample.shelf).1
  /\ lit "edge.png" ∉ unlinked (cleanOldFiles Sample.cfg Sample.stubborn
                                  Sample.now Sample.shelf).1.
Proof.
  pose proof (sweep_contract Sample.cfg Sample.stubborn Sample.now
                Sample.shelf eq_refl (fun _ => eq_refl)) as H.
  cbv zeta in H. destruct H as (Hiff & _ & _ & Hedge & _).
  split.
  - apply Hiff. exists (Entry RegularFile (75 * 3600000) 10).
    split; [by vm_compute|]. split; [reflexivity | by vm_compute].
  - destruct (Hedge (lit "edge.png") (Entry RegularFile (76 * 3600000) 20))
      as [Hn _]; [by vm_compute | by vm_compute | exact Hn].
Defined.

End SweepFacts.


(** ** multer and the upload route *)

Module UploadFacts.

Import Multer AuthFacts NamerFacts.

Section Engine.

Variable uuid : nat -> jsstring.
Variable now : Z.
Variable o : os.

(** Why the declared type has to have the form of a MIME type: the
    filter reads [ALLOWED] as a plain object, and lets a part through whose
    declared type is the name of a property of [Object.prototype]. *)
Example fileFilter_inherited_name :
  fileFilter (Part (lit "file") (lit "a.png") (lit "constructor") 1) = None
  /\ (lit "constructor" ∉ allow_list)
  /\ is_mime_type (lit "constructor") = false.
Proof.
  split; [reflexivity|]. split; [|reflexivity].
  unfold allow_list. rewrite !elem_of_cons, elem_of_nil.
  intros [H|[H|[H|[H|[]]]]]; by vm_compute in H.
Qed.

(** A part of a type outside the allow-list does not pass the filter. *)
Lemma fileFilter_rejects (p : part) :
  is_mime_type (mimetype p) = true ->
  mimetype p ∉ allow_list ->
  fileFilter p = Some (lit "Only jpg/png/gif/mp4 allowed").
Proof.
  intros Hm Hn. unfold fileFilter. rewrite (ALLOWED_mime_type _ Hm).
  destruct (own_property ALLOWED_entries (mimetype p)) as [e|] eqn:E; [|done].
  exfalso. apply Hn, own_property_allow_list. by exists e.
Qed.

Lemma fileFilter_accepts (p : part) :
  mimetype p ∈ allow_list -> fileFilter p = None.
Proof.
  intros Hm. apply own_property_allow_list in Hm as [e He].
  unfold fileFilter.
  rewrite (ALLOWED_mime_type _ (own_property_mime_type _ _ He)), He.
  simpl. by rewrite (own_property_truthy _ _ He).
Qed.

Lemma named_after_mono (hs hs' : list part) (name : jsstring) :
  (forall q, q ∈ hs -> q ∈ hs') ->
  named_after uuid hs name -> named_after uuid hs' name.
Proof. intros H (q & k & Hq & E). exists q, k. split; [by apply H | done]. Qed.

Lemma engine_inv_init (w : world) : engine_inv uuid w (init w).
Proof.
  split; [|split]; simpl.
  - intros q Hq. by apply elem_of_nil in Hq.
  - intros f Hf. by apply elem_of_nil in Hf.
  - done.
Qed.

(** A write, refused or not, leaves every other name alone. *)
Lemma write_other (d : gmap jsstring entry) (name x : jsstring) (sz : Z) :
  x <> name -> (write o now d name sz).1 !! x = d !! x.
Proof.
  intros Hne. unfold write.
  destruct (write_fault o name) as [[err [n|]]|]; simpl;
    by rewrite ?lookup_insert_ne.
Qed.

(** A write that is not refused stores the file. *)
Lemma write_ok (d : gmap jsstring entry) (name : jsstring) (sz : Z) :
  write_fault o name = None ->
  write o now d name sz = (<[name := Entry RegularFile now sz]> d, None).
Proof. intros H. unfold write. by rewrite H. Qed.

(** The stream emits an error exactly when the write is refused. *)
Lemma write_error (d : gmap jsstring entry) (name : jsstring) (sz : Z) :
  (write o now d name sz).2 = w_error <$> write_fault o name.
Proof. unfold write. by destruct (write_fault o name). Qed.

Lemma handleFile_file (p : part) (written : Z) (w : world) :
  (handleFile uuid now o p written w).1.1
  = File (fieldname p) (originalname p) (mimetype p)
         (Namer.filename p (uuid (uuid_calls w))) written.
Proof. unfold handleFile. by destruct (write _ _ _ _ _). Qed.

Lemma handleFile_world (p : part) (written : Z) (w : world) :
  (handleFile uuid now o p written w).1.2
  = World (write o now (dir w) (Namer.filename p (uuid (uuid_calls w)))
                 written).1
          (S (uuid_calls w)).
Proof. unfold handleFile. by destruct (write _ _ _ _ _). Qed.

Lemma handleFile_error (p : part) (written : Z) (w : world) :
  (handleFile uuid now o p written w).2
  = w_error <$> write_fault o (Namer.filename p (uuid (uuid_calls w))).
Proof.
  unfold handleFile. rewrite <- (write_error (dir w) _ written).
  by destruct (write _ _ _ _ _).
Qed.

Lemma handleFile_ok (p : part) (written : Z) (w : world) :
  write_fault o (Namer.filename p (uuid (uuid_calls w))) = None ->
  handleFile uuid now o p written w
  = (File (fieldname p) (originalname p) (mimetype p)
          (Namer.filename p (uuid (uuid_calls w))) written,
     World (<[Namer.filename p (uuid (uuid_calls w))
              := Entry RegularFile now written]> (dir w))
           (S (uuid_calls w)),
     None).
Proof. intros H. unfold handleFile. by rewrite (write_ok _ _ _ H). Qed.

Lemma handleFile_inv (w0 : world) (st : state) (p : part) (written : Z)
    (fl : gmap jsstring Z) (acc : list file) (recorded : bool) :
  engine_inv uuid w0 st ->
  fileFilter p = None ->
  engine_inv uuid w0
    (State (handleFile uuid now o p written (st_world st)).1.2 fl
           (if recorded
            then uploadedFiles st
                 ++ [(handleFile uuid now o p written (st_world st)).1.1]
            else uploadedFiles st)
           acc (handled st ++ [p])).
Proof.
  intros (Hf & Hu & Hd) Hp.
  rewrite handleFile_file, handleFile_world.
  assert (Hmono : forall name, named_after uuid (handled st) name ->
                               named_after uuid (handled st ++ [p]) name).
  { intros name. apply named_after_mono.
    intros q Hq. apply elem_of_app. by left. }
  split; [|split]; simpl.
  - intros q. rewrite elem_of_app, list_elem_of_singleton.
    intros [Hq| ->]; [by apply Hf | done].
  - intros f Hin.
    assert (Hcases : f ∈ uploadedFiles st
                     \/ f_filename f
                        = Namer.filename p (uuid (uuid_calls (st_world st)))).
    { destruct recorded; [|by left].
      apply elem_of_app in Hin as [Hin|Hin]; [by left|].
      apply list_elem_of_singleton in Hin. subst f. by right. }
    destruct Hcases as [Hin'|E]; [by apply Hmono, Hu|].
    exists p, (uuid_calls (st_world st)). split; [|done].
    apply elem_of_app. right. by apply list_elem_of_singleton.
  - intros name Hne.
    destruct (decide (name = Namer.filename p (uuid (uuid_calls (st_world st)))))
      as [->|Hn].
    + exists p, (uuid_calls (st_world st)). split; [|done].
      apply elem_of_app. right. by apply list_elem_of_singleton.
    + rewrite write_other in Hne by done. by apply Hmono, Hd.
Qed.

Lemma on_file_inv (w0 : world) (p : part) (st : state) :
  engine_inv uuid w0 st -> engine_inv uuid w0 (on_file uuid now o p st).1.
Proof.
  intros Hinv. unfold on_file.
  destruct (truthy (originalname p)); [|done]. simpl.
  destruct (_ <=? 0)%Z; [done|].
  destruct (fileFilter p) eqn:Ef; [done|].
  destruct (fileSize <? size p)%Z.
  - pose proof (handleFile_inv w0 st p fileSize) as H.
    destruct (handleFile uuid now o p fileSize (st_world st))
      as [[f w] [err|]]; simpl in *.
    + by apply (H _ _ false).
    + by apply (H _ _ true).
  - pose proof (handleFile_inv w0 st p (size p)) as H.
    destruct (handleFile uuid now o p (size p) (st_world st))
      as [[f w] [err|]]; simpl in *.
    + by apply (H _ _ false).
    + by apply (H _ _ true).
Qed.

Lemma on_parts_inv (w0 : world) (ps : list part) (st : state) :
  engine_inv uuid w0 st -> engine_inv uuid w0 (on_parts uuid now o ps st).1.
Proof.
  revert st. induction ps as [|p ps IH]; intros st Hinv; [done|].
  simpl. pose proof (on_file_inv w0 p st Hinv) as H1.
  destruct (on_file uuid now o p st) as [st' [e|]]; [done|].
  by apply IH.
Qed.

(** Removing the stored files touches only their names. *)
Lemma removeUploadedFiles_lookup (fs : list file) (d : gmap jsstring entry)
    (name : jsstring) :
  removeUploadedFiles o fs d !! name <> d !! name ->
  exists f, f ∈ fs /\ f_filename f = name.
Proof.
  revert d. induction fs as [|f fs IH]; intros d Hne; [done|].
  simpl in Hne.
  destruct (decide (f_filename f = name)) as [E|E].
  { exists f. split; [by left | done]. }
  destruct (IH (match unlink o d (f_filename f) with
                | inl _ => d | inr d' => d' end)) as (f' & Hf' & E').
  - intros H. apply Hne. rewrite H.
    destruct (unlink o d (f_filename f)) as [?|d'] eqn:Eu; [done|].
    by apply (DeleteFacts.unlink_other o d d' (f_filename f)).
  - exists f'. split; [by right | done].
Qed.

Lemma run_inv (w0 : world) (ps : list part) :
  engine_inv uuid w0 (run uuid now o ps w0).1.
Proof.
  unfold run.
  pose proof (on_parts_inv w0 ps (init w0) (engine_inv_init w0)) as Hinv.
  destruct (on_parts uuid now o ps (init w0)) as [st [e|]]; [|done].
  simpl in *. destruct Hinv as (Hf & Hu & Hd).
  split; [done|]. split; [done|]. simpl.
  intros name Hne.
  destruct (decide (dir (st_world st) !! name = dir w0 !! name)) as [E|E];
    [|by apply Hd].
  rewrite <- E in Hne.
  apply removeUploadedFiles_lookup in Hne as (f & Hin & <-). by apply Hu.
Qed.

(** A part that the filter rejects stops the request, at the latest when
    its turn comes. *)
Lemma on_parts_rejected (ps : list part) (p : part) (st : state) :
  p ∈ ps -> truthy (originalname p) = true ->
  fileFilter p <> None ->
  exists e, (on_parts uuid now o ps st).2 = Some e.
Proof.
  intros Hin Hname Hrej. revert st.
  induction ps as [|q ps IH]; intros st; [by apply elem_of_nil in Hin|].
  simpl. apply elem_of_cons in Hin as [<-|Hin].
  - unfold on_file. rewrite Hname. simpl.
    destruct (_ <=? 0)%Z; [by eexists|].
    destruct (fileFilter p); [by eexists | done].
  - destruct (on_file uuid now o q st) as [st' [e|]]; [by eexists|].
    by apply IH.
Qed.

(** A write that the system refuses ends the request with the error of
    the stream. *)
Lemma on_file_refused (p : part) (st : state) (f : write_failure) :
  truthy (originalname p) = true ->
  (0 < default 0%Z (filesLeft st !! fieldname p))%Z ->
  fileFilter p = None ->
  write_fault o (Namer.filename p (uuid (uuid_calls (st_world st)))) = Some f ->
  (on_file uuid now o p st).2 = Some (StorageError (w_error f)).
Proof.
  intros Hname Hleft Hfilter Hfault. unfold on_file. rewrite Hname. simpl.
  destruct (Z.leb_spec (default 0%Z (filesLeft st !! fieldname p)) 0);
    [lia|].
  rewrite Hfilter. cbn [st_world].
  destruct (fileSize <? size p)%Z.
  - pose proof (handleFile_error p fileSize (st_world st)) as He.
    rewrite Hfault in He.
    by destruct (handleFile uuid now o p fileSize (st_world st))
      as [[? ?] [err|]]; simpl in *; inversion He.
  - pose proof (handleFile_error p (size p) (st_world st)) as He.
    rewrite Hfault in He.
    by destruct (handleFile uuid now o p (size p) (st_world st))
      as [[? ?] [err|]]; simpl in *; inversion He.
Qed.

End Engine.

(** C8. An authenticated upload with a file part whose declared MIME
    type (a string of the form type/subtype) is outside the allow-list:
    the file filter rejects that part with its error, multer ends the
    request with an error and the answer is Express's 500, the part is
    never given to the storage engine, and whatever differs in the storage
    directory afterwards bears a name made for a part that passed the
    filter. *)
Theorem upload_rejects_foreign_type
    (encodeURIComponent : jsstring -> jsstring) (uuid : nat -> jsstring)
    (cfg : config) (o : os) (now : Z) (req : request) (w : world)
    (parts : list part) (p : part) :
  authorized cfg req ->
  multipart req = Some parts ->
  p ∈ parts ->
  truthy (originalname p) = true ->
  is_mime_type (mimetype p) = true ->
  mimetype p ∉ allow_list ->
  fileFilter p = Some (lit "Only jpg/png/gif/mp4 allowed")
  /\ (exists e, (run uuid now o parts w).2 = Some e)
  /\ status (post_upload encodeURIComponent uuid cfg o now req w).1 = 500%Z
  /\ (p ∉ handled (run uuid now o parts w).1)
  /\ (forall name : jsstring,
        dir (post_upload encodeURIComponent uuid cfg o now req w).2 !! name
        <> dir w !! name ->
        named_after uuid (handled (run uuid now o parts w).1) name).
Proof.
  intros Hauth Hparts Hin Hname Hm Hn.
  pose proof (fileFilter_rejects p Hm Hn) as Hrej.
  assert (Herr : exists e, (run uuid now o parts w).2 = Some e).
  { destruct (on_parts_rejected uuid now o parts p (init w) Hin Hname)
      as [e He]; [by rewrite Hrej|].
    unfold run. destruct (on_parts uuid now o parts (init w)) as [st [e'|]];
      [by eexists | done]. }
  pose proof (run_inv uuid now o w parts) as (Hf & _ & Hd).
  split; [done|]. split; [done|].
  unfold post_upload.
  rewrite (proj2 (requireBearer_next cfg req) Hauth), Hparts.
  destruct Herr as [e He].
  destruct (run uuid now o parts w) as [st oe]. simpl in *. subst oe.
  split; [done|]. split; [|done].
  intros Hh. apply Hf in Hh. by rewrite Hrej in Hh.
Qed.

Lemma upload_rejects_foreign_type_witness :
  status (post_upload Sample.encode_unreserved Sample.uuid Sample.cfg
                      Sample.quiet Sample.now
                      (Sample.upload [Sample.clip; Sample.document])
                      Sample.empty_world).1 = 500%Z
  /\ Sample.document
     ∉ handled (run Sample.uuid Sample.now Sample.quiet
                    [Sample.clip; Sample.document] Sample.empty_world).1.
Proof.
  pose proof (upload_rejects_foreign_type Sample.encode_unreserved Sample.uuid
                Sample.cfg Sample.quiet Sample.now
                (Sample.upload [Sample.clip; Sample.document])
                Sample.empty_world [Sample.clip; Sample.document]
                Sample.document) as H.
  destruct H as (_ & _ & Hs & Hh & _).
  - apply sample_upload_authorized.
  - reflexivity.
  - right. by left.
  - by vm_compute.
  - by vm_compute.
  - intros Hin. unfold allow_list in Hin.
    repeat (apply elem_of_cons in Hin as [Hin|Hin];
            [by vm_compute in Hin|]).
    by apply elem_of_nil in Hin.
  - split; [exact Hs | exact Hh].
Defined.

(** *** Names of different identifiers differ *)

(** A list is cut at the last occurrence of a code unit in one way
    only. *)
Lemma app_cons_last_inj (c : N) (l1 r1 l2 r2 : jsstring) :
  c ∉ r1 -> c ∉ r2 ->
  l1 ++ c :: r1 = l2 ++ c :: r2 -> l1 = l2 /\ r1 = r2.
Proof.
  intros H1 H2. revert l2.
  induction l1 as [|a l1 IH]; intros [|b l2] E; simpl in E.
  - by inversion E.
  - inversion E; subst. exfalso. apply H1.
    apply elem_of_app. right. by left.
  - inversion E; subst. exfalso. apply H2.
    apply elem_of_app. right. by left.
  - inversion E; subst. destruct (IH l2) as [-> ->]; done.
Qed.

Lemma uuid_shaped_length (id : jsstring) :
  Namer.uuid_shaped id = true -> length id = 36%nat.
Proof.
  unfold Namer.uuid_shaped. intros H.
  apply andb_true_iff in H as [H _]. by apply Nat.eqb_eq.
Qed.

(** The extension of a part of an allowed type: a dot, then no dot. *)
Lemma extension_shape (p : part) :
  mimetype p ∈ allow_list ->
  exists r, to_string (Namer.extension p) = Path.dot :: r /\ Path.dot ∉ r.
Proof.
  intros Hm. apply own_property_allow_list in Hm as [e He].
  rewrite (extension_spec p (own_property_mime_type _ _ He)).
  unfold Namer.spec_extension. rewrite He.
  destruct (PathFacts.extname_shape (originalname p)) as [E|(r & E & Hr)].
  - rewrite E. simpl. by apply (own_property_shape (mimetype p)).
  - rewrite E. simpl. by exists r.
Qed.

Lemma filename_id_inj (p q : part) (i j : jsstring) :
  mimetype p ∈ allow_list -> mimetype q ∈ allow_list ->
  Namer.uuid_shaped i = true -> Namer.uuid_shaped j = true ->
  Namer.filename p i = Namer.filename q j -> i = j.
Proof.
  intros Hp Hq Hi Hj E. unfold Namer.filename in E.
  destruct (extension_shape p Hp) as (r1 & E1 & H1).
  destruct (extension_shape q Hq) as (r2 & E2 & H2).
  rewrite E1, E2, !app_assoc in E.
  apply app_cons_last_inj in E as [E _]; [|done..].
  apply app_inj_2 in E as [_ E]; [done|].
  by rewrite !uuid_shaped_length.
Qed.

(** *** A valid body *)

Section Valid.

Variable uuid : nat -> jsstring.
Variable now : Z.
Variable o : os.

Lemma file_parts_cons (p : part) (ps : list part) :
  file_parts (p :: ps)
  = if truthy (originalname p) then p :: file_parts ps else file_parts ps.
Proof. done. Qed.

Lemma count_field_cons (f : jsstring) (p : part) (ps : list part) :
  truthy (originalname p) = true ->
  count_field f (p :: ps)
  = ((if str_eqb (fieldname p) f then 1 else 0) + count_field f ps)%nat.
Proof.
  intros Hp. unfold count_field. rewrite file_parts_cons, Hp. simpl.
  by destruct (str_eqb (fieldname p) f).
Qed.

Lemma valid_part_spec (p : part) :
  valid_part p = true ->
  (fieldname p = lit "file" \/ fieldname p = lit "files")
  /\ mimetype p ∈ allow_list /\ (size p <= fileSize)%Z.
Proof.
  unfold valid_part. rewrite !andb_true_iff, orb_true_iff, !str_eqb_eq.
  rewrite bool_decide_eq_true, Z.leb_le. tauto.
Qed.

(** The engine on valid parts, with room left under every field and
    no write refused: no error, and the accepted files are those of the
    file parts. *)
Lemma on_parts_valid (ps : list part) (st : state) :
  (forall n : jsstring, write_fault o n = None) ->
  (forall p, p ∈ file_parts ps -> valid_part p = true) ->
  (forall f, (Z.of_nat (count_field f ps)
              <= default 0 (filesLeft st !! f))%Z) ->
  exists st',
    on_parts uuid now o ps st = (st', None)
    /\ accepted st'
       = accepted st ++ stored_files uuid (uuid_calls (st_world st)) ps.
Proof.
  intros Hw. revert st. induction ps as [|p ps IH]; intros st Hval Hleft.
  - exists st. split; [done|]. simpl. by rewrite app_nil_r.
  - simpl. unfold on_file.
    destruct (truthy (originalname p)) eqn:Hp; simpl.
    + rewrite file_parts_cons, Hp in Hval.
      destruct (valid_part_spec p) as (_ & Hm & Hs); [apply Hval; by left|].
      pose proof (Hleft (fieldname p)) as Hl.
      rewrite (count_field_cons _ _ _ Hp) in Hl.
      replace (str_eqb (fieldname p) (fieldname p)) with true in Hl
        by (symmetry; by apply str_eqb_eq).
      destruct (_ <=? 0)%Z eqn:E0; [apply Z.leb_le in E0; lia|].
      rewrite (fileFilter_accepts p Hm).
      destruct (fileSize <? size p)%Z eqn:Es; [apply Z.ltb_lt in Es; lia|].
      rewrite (handleFile_ok uuid now o p (size p) (st_world st) (Hw _)).
      simpl.
      edestruct IH as (st' & Hrun & Hacc); [| |exists st'; split; [exact Hrun|]].
      * intros q Hq. apply Hval. by right.
      * intros f. simpl. pose proof (Hleft f) as Hf.
        rewrite (count_field_cons _ _ _ Hp) in Hf.
        destruct (decide (fieldname p = f)) as [<-|Hne].
        -- rewrite lookup_insert_eq. simpl. lia.
        -- rewrite lookup_insert_ne by done.
           destruct (str_eqb (fieldname p) f) eqn:Ef;
             [by apply str_eqb_eq in Ef | lia].
      * rewrite Hacc. simpl. by rewrite <- app_assoc.
    + apply IH.
      * intros q Hq. apply Hval. by rewrite file_parts_cons, Hp.
      * intros f. specialize (Hleft f). unfold count_field in *.
        by rewrite file_parts_cons, Hp in Hleft.
Qed.

Lemma elem_of_stored_files (n : nat) (ps : list part) (f : file) :
  f ∈ stored_files uuid n ps ->
  exists (p : part) (k : nat),
    p ∈ file_parts ps
    /\ (n <= k < n + length (file_parts ps))%nat
    /\ f = stored_file p (uuid k).
Proof.
  revert n. induction ps as [|p ps IH]; intros n Hf; simpl in Hf.
  - by apply elem_of_nil in Hf.
  - rewrite file_parts_cons. destruct (truthy (originalname p)).
    + apply elem_of_cons in Hf as [->|Hf].
      * exists p, n. split; [by left|]. split; [simpl; lia | done].
      * destruct (IH _ Hf) as (q & k & Hq & Hk & E).
        exists q, k. split; [by right|]. split; [simpl; lia | done].
    + by apply IH.
Qed.

Lemma length_stored_files (n : nat) (ps : list part) :
  length (stored_files uuid n ps) = length (file_parts ps).
Proof.
  revert n. induction ps as [|p ps IH]; intros n; [done|].
  rewrite file_parts_cons. simpl.
  destruct (truthy (originalname p)); simpl; by rewrite IH.
Qed.

Lemma NoDup_stored_files (n : nat) (ps : list part) :
  (forall p, p ∈ file_parts ps -> mimetype p ∈ allow_list) ->
  (forall k, Namer.uuid_shaped (uuid k) = true) ->
  NoDup (uuid <$> seq n (length (file_parts ps))) ->
  NoDup (f_filename <$> stored_files uuid n ps).
Proof.
  intros Hm Hshape. revert n.
  induction ps as [|p ps IH]; intros n Hnd; [constructor|].
  rewrite file_parts_cons in Hnd, Hm. simpl.
  destruct (truthy (originalname p)); [|by apply IH].
  cbn [length seq] in Hnd. rewrite fmap_cons in Hnd.
  apply NoDup_cons in Hnd as [Hn Hnd].
  rewrite fmap_cons. apply NoDup_cons. split.
  - intros Hin. apply list_elem_of_fmap in Hin as (f & E & Hf).
    apply elem_of_stored_files in Hf as (q & k & Hq & Hk & ->).
    simpl in E. apply filename_id_inj in E;
      [|apply Hm; by left | apply Hm; by right | done..].
    apply Hn. rewrite E. apply list_elem_of_fmap. exists k.
    split; [done|]. apply elem_of_seq. lia.
  - apply IH; [|done]. intros q Hq. apply Hm. by right.
Qed.

End Valid.

(** *** The route handler *)

Section Handler.

Variable encodeURIComponent : jsstring -> jsstring.

Lemma forEach_add_spec (host : jsstring) (fs : list file)
    (collected : list uploaded_entry) :
  forEach_add encodeURIComponent host fs collected
  = collected ++ (entry_of encodeURIComponent host <$> fs).
Proof.
  unfold forEach_add. revert collected.
  induction fs as [|f fs IH]; intros collected; simpl.
  - by rewrite app_nil_r.
  - rewrite IH. unfold add, entry_of. by rewrite <- app_assoc.
Qed.

Lemma files_of_cons (field : jsstring) (f : file) (fs : list file) :
  files_of field (f :: fs)
  = if str_eqb (f_fieldname f) field then f :: files_of field fs
    else files_of field fs.
Proof. done. Qed.

(** The two arrays of [req.files] together hold every accepted file
    once. *)
Lemma files_of_partition (fs : list file) :
  (forall f, f ∈ fs ->
     f_fieldname f = lit "file" \/ f_fieldname f = lit "files") ->
  files_of (lit "file") fs ++ files_of (lit "files") fs ≡ₚ fs.
Proof.
  induction fs as [|f fs IH]; intros Hf; [done|].
  rewrite !files_of_cons.
  assert (IH' : files_of (lit "file") fs ++ files_of (lit "files") fs ≡ₚ fs).
  { apply IH. intros g Hg. apply Hf. by right. }
  destruct (Hf f) as [E|E]; [by left|..]; rewrite E.
  - change (str_eqb (lit "file") (lit "file")) with true.
    change (str_eqb (lit "file") (lit "files")) with false.
    simpl. by rewrite IH'.
  - change (str_eqb (lit "files") (lit "file")) with false.
    change (str_eqb (lit "files") (lit "files")) with true.
    cbv iota. rewrite <- Permutation_middle. by rewrite IH'.
Qed.

End Handler.

(** *** The response to a valid upload *)

Lemma valid_upload_spec (ps : list part) :
  valid_upload ps = true ->
  (forall p, p ∈ file_parts ps -> valid_part p = true)
  /\ (count_field (lit "file") ps <= 1)%nat
  /\ (count_field (lit "files") ps <= 20)%nat.
Proof.
  unfold valid_upload. rewrite !andb_true_iff, forallb_forall, !Nat.leb_le.
  intros [[Hv H1] H20]. split; [|done].
  intros p Hp. by apply Hv, list_elem_of_In.
Qed.

Lemma count_fields_total (l : list part) :
  (forall p, p ∈ l -> fieldname p = lit "file" \/ fieldname p = lit "files") ->
  length l
  = (length (List.filter (fun p => str_eqb (fieldname p) (lit "file")) l)
     + length (List.filter (fun p => str_eqb (fieldname p) (lit "files")) l))%nat.
Proof.
  induction l as [|p l IH]; intros Hf; [done|].
  simpl. rewrite IH by (intros q Hq; apply Hf; by right).
  destruct (Hf p) as [E|E]; [by left|..]; rewrite E.
  - change (str_eqb (lit "file") (lit "file")) with true.
    change (str_eqb (lit "file") (lit "files")) with false. done.
  - change (str_eqb (lit "files") (lit "file")) with false.
    change (str_eqb (lit "files") (lit "files")) with true. simpl. lia.
Qed.

Lemma count_field_other (f : jsstring) (ps : list part) :
  (forall p, p ∈ file_parts ps ->
     fieldname p = lit "file" \/ fieldname p = lit "files") ->
  f <> lit "file" -> f <> lit "files" -> count_field f ps = 0%nat.
Proof.
  intros Hf H1 H2. unfold count_field.
  induction (file_parts ps) as [|p l IH]; [done|].
  simpl. destruct (str_eqb (fieldname p) f) eqn:E.
  - apply str_eqb_eq in E. destruct (Hf p) as [?|?]; [by left|congruence..].
  - apply IH. intros q Hq. apply Hf. by right.
Qed.

(** The counters multer starts with leave room for a valid body. *)
Lemma valid_upload_room (w : world) (ps : list part) :
  valid_upload ps = true ->
  forall f, (Z.of_nat (count_field f ps)
             <= default 0 (filesLeft (init w) !! f))%Z.
Proof.
  intros Hv f. apply valid_upload_spec in Hv as (Hv & H1 & H20).
  assert (Hf : forall p, p ∈ file_parts ps ->
                 fieldname p = lit "file" \/ fieldname p = lit "files").
  { intros p Hp. by destruct (valid_part_spec p (Hv p Hp)) as (? & _). }
  unfold init. cbn [filesLeft]. unfold fields.
  rewrite !list_to_map_cons, list_to_map_nil.
  destruct (decide (f = lit "file")) as [->|Hn1].
  { rewrite lookup_insert_eq. simpl. lia. }
  rewrite lookup_insert_ne by done.
  destruct (decide (f = lit "files")) as [->|Hn2].
  { rewrite lookup_insert_eq. simpl. lia. }
  rewrite lookup_insert_ne by done. rewrite lookup_empty. simpl.
  rewrite (count_field_other f ps Hf Hn1 Hn2). lia.
Qed.

(** C5. An authenticated upload whose file parts are valid, at most one
    under [file] and at most twenty under [files], N of them in all, when
    the system refuses no write and the identifiers drawn for it are
    well-formed and pairwise different, so that all N files are accepted:
    N is at most 21; for N of at least one the answer is 200 with an
    [uploaded] array of exactly N entries, whose filenames are pairwise
    different, each entry holding the stored name of one of the parts,
    that part's size and declared MIME type, and the URL made of the host
    and the encoded name; for N zero (no file part, or no multipart body
    at all) the answer is 400, No files received. *)
Theorem upload_response
    (encodeURIComponent : jsstring -> jsstring) (uuid : nat -> jsstring)
    (cfg : config) (o : os) (now : Z) (req : request) (w : world) :
  let parts := default [] (multipart req) in
  let N := length (file_parts parts) in
  let resp := (post_upload encodeURIComponent uuid cfg o now req w).1 in
  authorized cfg req ->
  valid_upload parts = true ->
  (forall n : jsstring, write_fault o n = None) ->
  (forall k : nat, Namer.uuid_shaped (uuid k) = true) ->
  NoDup (uuid <$> seq (uuid_calls w) N) ->
  (N <= 21)%nat
  /\ ((1 <= N)%nat ->
      exists entries : list uploaded_entry,
        resp = Response 200 (JsonUploaded entries)
        /\ length entries = N
        /\ NoDup (u_filename <$> entries)
        /\ Forall (fun u =>
                     exists (p : part) (k : nat),
                       p ∈ file_parts parts
                       /\ u_filename u = Namer.filename p (uuid k)
                       /\ u_size u = size p
                       /\ u_mimetype u = mimetype p
                       /\ url u = public_host cfg req ++ lit "/files/"
                                  ++ encodeURIComponent (u_filename u))
                  entries)
  /\ (N = 0%nat ->
      resp = Response 400 (JsonError (lit "No files received"))).
Proof.
  intros parts N resp Hauth Hvalid Hwrite Hshape Hnd. subst resp.
  unfold post_upload. rewrite (proj2 (requireBearer_next cfg req) Hauth).
  pose proof (valid_upload_spec parts Hvalid) as (Hv & H1 & H20).
  assert (Hfield : forall p, p ∈ file_parts parts ->
                     fieldname p = lit "file" \/ fieldname p = lit "files").
  { intros p Hp. by destruct (valid_part_spec p (Hv p Hp)) as (? & _). }
  assert (Hmime : forall p, p ∈ file_parts parts -> mimetype p ∈ allow_list).
  { intros p Hp. by destruct (valid_part_spec p (Hv p Hp)) as (_ & ? & _). }
  assert (HN : (N <= 21)%nat).
  { subst N. rewrite (count_fields_total _ Hfield).
    unfold count_field in H1, H20. lia. }
  split; [done|].
  destruct (multipart req) as [ps|] eqn:Eparts; simpl in parts.
  2:{ split; [subst N parts; simpl; lia | done]. }
  subst parts.
  destruct (on_parts_valid uuid now o ps (init w) Hwrite Hv
              (valid_upload_room w ps Hvalid))
    as (st & Hrun & Hacc).
  unfold run. rewrite Hrun. simpl in Hacc. simpl fst.
  unfold upload_handler. rewrite !forEach_add_spec, app_nil_l, <- fmap_app.
  set (L := files_of (lit "file") (accepted st)
            ++ files_of (lit "files") (accepted st)).
  assert (HL : L ≡ₚ stored_files uuid (uuid_calls w) ps).
  { subst L. rewrite Hacc. apply files_of_partition.
    intros f Hf. apply elem_of_stored_files in Hf as (p & k & Hp & _ & ->).
    by apply Hfield. }
  assert (Hlen : length (entry_of encodeURIComponent (public_host cfg req) <$> L)
                 = N).
  { rewrite length_fmap, HL. apply length_stored_files. }
  rewrite Hlen. split.
  - intros HN1. destruct (N =? 0)%nat eqn:E0; [apply Nat.eqb_eq in E0; lia|].
    eexists. split; [reflexivity|]. split; [done|]. split.
    + rewrite <- list_fmap_compose.
      change (u_filename ∘ entry_of encodeURIComponent (public_host cfg req))
        with f_filename.
      rewrite HL. by apply NoDup_stored_files.
    + apply Forall_fmap, Forall_forall. intros f Hf.
      rewrite HL in Hf.
      apply elem_of_stored_files in Hf as (p & k & Hp & _ & ->).
      exists p, k. by repeat split.
  - intros ->. done.
Qed.

Lemma upload_response_witness :
  exists entries : list uploaded_entry,
    (post_upload Sample.encode_unreserved Sample.uuid Sample.cfg Sample.quiet
                 Sample.now (Sample.upload [Sample.photo; Sample.clip])
                 Sample.empty_world).1
    = Response 200 (JsonUploaded entries)
    /\ length entries = 2%nat
    /\ NoDup (u_filename <$> entries).
Proof.
  pose proof (upload_response Sample.encode_unreserved Sample.uuid Sample.cfg
                Sample.quiet Sample.now
                (Sample.upload [Sample.photo; Sample.clip])
                Sample.empty_world) as H.
  cbv zeta in H.
  destruct H as (_ & H & _).
  - apply sample_upload_authorized.
  - by vm_compute.
  - done.
  - intros [|[|k]]; by vm_compute.
  - apply (bool_decide_unpack _). by vm_compute.
  - destruct H as (entries & Hr & Hl & Hn & _); [vm_compute; lia|].
    exists entries. split; [exact Hr|]. split; [exact Hl | exact Hn].
Defined.

End UploadFacts.

(** * Further properties *)

(** ** Stored names *)

Module NameFacts.

Import Path Namer NamerFacts PathFacts.

Section ExtSlash.

Variable path : jsstring.

Lemma ext_slash_inv_post (n : nat) (st : ext_state) :
  ext_slash_inv path n st -> ext_slash_post path st.
Proof.
  intros [(He & _ & _)|(_ & Hlt & Hj & [Hs|Hs])].
  - right. by left.
  - by left.
  - right. right. split; [lia|]. intros j Hr. apply Hj. lia.
Qed.

Lemma ext_slash_step (i : nat) (st : ext_state) :
  charCodeAt path i <> slash ->
  ext_slash_inv path (S i) st ->
  ext_slash_inv path i (ext_step i (charCodeAt path i) st).
Proof.
  intros Hc Hinv. unfold ext_step. right.
  destruct st as [sd sp e m pd]. unfold ext_slash_inv in Hinv.
  cbn [startDot startPart ext_end ext_matchedSlash preDotState] in *.
  destruct Hinv as [(-> & -> & ->)|(-> & Hlt & Hj & Hs)].
  - change (-1 =? -1)%Z with true. cbv iota.
    cbn [startDot startPart ext_end ext_matchedSlash preDotState].
    change (-1 =? -1)%Z with true. cbn [negb]. cbv iota.
    destruct (charCodeAt path i =? dot);
      cbn [startDot startPart ext_end ext_matchedSlash preDotState].
    + split; [done|]. split; [lia|]. split; [|right; lia].
      intros j Hr. by replace j with i by lia.
    + split; [done|]. split; [lia|]. split; [|by left].
      intros j Hr. by replace j with i by lia.
  - destruct (Z.eqb_spec e (-1)); [lia|].
    cbn [startDot startPart ext_end ext_matchedSlash preDotState].
    assert (Hj' : forall j : nat,
              (Z.of_nat i <= Z.of_nat j < e)%Z -> charCodeAt path j <> slash).
    { intros j Hr. destruct (decide (j = i)) as [->|]; [done|].
      apply Hj. lia. }
    destruct (charCodeAt path i =? dot).
    + destruct (Z.eqb_spec sd (-1));
        cbn [startDot startPart ext_end ext_matchedSlash preDotState negb].
      * split; [done|]. split; [lia|]. split; [done | right; lia].
      * destruct (negb (pd =? 1)%Z);
          cbn [startDot startPart ext_end ext_matchedSlash preDotState];
          (split; [done|]; split; [lia|]; split; [done | right; lia]).
    + destruct (Z.eqb_spec sd (-1));
        cbn [startDot startPart ext_end ext_matchedSlash preDotState negb].
      * split; [done|]. split; [lia|]. split; [done | by left].
      * split; [done|]. split; [lia|]. split; [done | right; lia].
Qed.

Lemma ext_slash_loop (n : nat) (st : ext_state) :
  ext_slash_inv path n st -> ext_slash_post path (ext_loop path n st).
Proof.
  revert st. induction n as [|i IH]; intros st Hinv; simpl.
  - by apply (ext_slash_inv_post 0).
  - destruct (N.eqb_spec (charCodeAt path i) slash) as [Ec|Ec].
    + destruct Hinv as [(He & Hm & Hs)|(Hm & Hlt & Hj & Hs)]; rewrite Hm;
        cbn [negb]; cbv iota.
      * apply IH. left. done.
      * destruct Hs as [Hs|Hs].
        -- by left.
        -- right. right. simpl. split; [lia|].
           intros j Hr. apply Hj. lia.
    + apply IH. by apply ext_slash_step.
Qed.

End ExtSlash.

(** An extension holds no separator. *)
Lemma extname_no_slash (path : jsstring) : slash ∉ extname path.
Proof.
  unfold extname.
  pose proof (ext_slash_loop path (length path) ext_init) as H.
  set (st := ext_loop path (length path) ext_init) in *.
  destruct (_ || _) eqn:E; [apply not_elem_of_nil|].
  repeat (apply orb_false_iff in E as [E ?]).
  apply Z.eqb_neq in E.
  destruct H as [Hp|[Hp|[Hge Hp]]].
  - left. done.
  - done.
  - by match goal with H : (ext_end st =? -1)%Z = false |- _ =>
         apply Z.eqb_neq in H end.
  - intros Hin. apply elem_of_zslice in Hin as (j & Hr & Hc); [|done].
    by apply (Hp j).
Qed.

(** The code units of an identifier are hexadecimal digits and
    hyphens. *)
Lemma uuid_chars_ok_elem (i : nat) (s : jsstring) (c : N) :
  uuid_chars_ok i s = true -> c ∈ s -> is_hex c = true \/ c = 45.
Proof.
  revert i. induction s as [|d s IH]; intros i H Hc.
  - by apply elem_of_nil in Hc.
  - simpl in H. apply andb_true_iff in H as [Hd Hs].
    apply elem_of_cons in Hc as [->|Hc]; [|by apply (IH (S i))].
    unfold uuid_char_ok in Hd.
    destruct (_ || _); [right; by apply N.eqb_eq | by left].
Qed.

Lemma uuid_shaped_no_slash (id : jsstring) :
  uuid_shaped id = true -> slash ∉ id.
Proof.
  unfold uuid_shaped. intros H Hin. apply andb_true_iff in H as [_ H].
  by destruct (uuid_chars_ok_elem 0 id slash H Hin).
Qed.

(** What a template literal prints for the extension the namer chose
    holds no separator, whatever [ALLOWED] returned. *)
Lemma extension_no_slash (file : part) :
  slash ∉ to_string (extension file).
Proof.
  assert (Hv : forall v, v = ALLOWED (mimetype file) \/ v = VStr []
                 \/ (exists p, v = VStr (extname p)) ->
               slash ∉ to_string v).
  { intros v [->|[->|[p ->]]].
    - unfold ALLOWED.
      destruct (own_property ALLOWED_entries (mimetype file)) as [e|] eqn:Eo.
      + apply own_property_cases in Eo.
        destruct Eo as [[_ ->]|[[_ ->]|[[_ ->]|[_ ->]]]];
          apply (bool_decide_unpack _); by vm_compute.
      + destruct (existsb _ _) eqn:Ex.
        * apply existsb_exists in Ex as (k & Hk & E).
          apply str_eqb_eq in E. rewrite E. clear E.
          unfold object_prototype_names in Hk. simpl in Hk.
          repeat (destruct Hk as [<-|Hk];
                  [apply (bool_decide_unpack _); by vm_compute|]).
          done.
        * apply (bool_decide_unpack _). by vm_compute.
    - apply not_elem_of_nil.
    - apply extname_no_slash. }
  apply Hv. unfold extension, vor.
  repeat match goal with
         | |- context [if ?b then _ else _] => destruct b
         end; eauto.
Qed.

Lemma base_kept (file : part) :
  base file <> [] /\ Forall (fun c => kept_char c = true) (base file).
Proof.
  unfold base, or_str.
  destruct (truthy (sanitizeBaseName _)) eqn:E.
  - split; [by intros E0; rewrite E0 in E|].
    apply SanitizerFacts.sanitize_kept.
  - split; [done|]. by repeat constructor.
Qed.

Lemma filename_no_slash (file : part) (id : jsstring) :
  slash ∉ id -> slash ∉ filename file id.
Proof.
  intros Hid. unfold filename. rewrite !elem_of_app.
  intros [H|[H|[H|H]]].
  - destruct (base_kept file) as [_ Hk].
    rewrite Forall_forall in Hk. by specialize (Hk _ H).
  - by vm_compute in H; apply list_elem_of_singleton in H.
  - done.
  - by apply (extension_no_slash file).
Qed.

Lemma filename_names_entry (file : part) (id : jsstring) :
  names_directory (filename file id) = false.
Proof.
  assert (H : underscore ∈ filename file id).
  { unfold filename. rewrite !elem_of_app. right. left. by left. }
  assert (Hne : forall s : jsstring, underscore ∉ s -> filename file id <> s).
  { intros s Hs E. apply Hs. by rewrite <- E. }
  unfold names_directory, str_eqb.
  rewrite !bool_decide_eq_false_2; [done|..]; apply Hne;
    apply (bool_decide_unpack _); by vm_compute.
Qed.

Lemma stored_name_facts (file : part) (id : jsstring) :
  slash ∉ id ->
  (slash ∉ filename file id)
  /\ names_directory (filename file id) = false
  /\ basename (filename file id) None = filename file id.
Proof.
  intros Hid. pose proof (filename_no_slash file id Hid) as H.
  split; [done|]. split; [apply filename_names_entry|].
  apply basename_flat; [done | by left].
Qed.

(** X4. Whatever the client called the file (separators, [..], nothing
    at all) and whatever type it declared, the name the namer returns
    under an identifier without separator holds no separator and is none
    of the empty name, [.] and [..]: it names an entry of the storage
    directory itself, and [path.basename] gives it back unchanged. *)
Theorem stored_name_stays_inside (file : part) (id : jsstring) :
  slash ∉ id ->
  (slash ∉ filename file id)
  /\ names_directory (filename file id) = false
  /\ basename (filename file id) None = filename file id.
Proof. apply stored_name_facts. Qed.

Lemma stored_name_stays_inside_witness :
  basename (filename (Part (lit "file") (lit "../../etc/passwd")
                           (lit "image/png") 3)
                     (Sample.uuid 0)) None
  = lit "passwd_1b9d6bcd-bbfd-4b2d-9b5d-ab8dfbbd4bed.png".
Proof.
  destruct (stored_name_stays_inside
              (Part (lit "file") (lit "../../etc/passwd") (lit "image/png") 3)
              (Sample.uuid 0)) as (_ & _ & H).
  - apply uuid_shaped_no_slash. by vm_compute.
  - rewrite H. by vm_compute.
Defined.

(** X5. The stored name starts with a base that is never empty and
    holds only word characters, hyphens and dots, followed by an
    underscore and the identifier. *)
Theorem stored_name_base (file : part) (id : jsstring) :
  exists b rest : jsstring,
    filename file id = b ++ lit "_" ++ id ++ rest
    /\ b <> []
    /\ Forall (fun c => kept_char c = true) b.
Proof.
  exists (base file), (to_string (extension file)).
  split; [done|]. apply base_kept.
Qed.

(** X6. Two names made under different identifiers of the printed
    form are different, for parts of allowed types, whatever the original
    names: the stored name never collides while identifiers do not. *)
Theorem stored_names_differ (p q : part) (i j : jsstring) :
  mimetype p ∈ allow_list -> mimetype q ∈ allow_list ->
  uuid_shaped i = true -> uuid_shaped j = true ->
  i <> j ->
  filename p i <> filename q j.
Proof.
  intros Hp Hq Hi Hj Hne E. apply Hne.
  by apply (UploadFacts.filename_id_inj p q).
Qed.

Lemma stored_names_differ_witness :
  filename Sample.photo (Sample.uuid 0) <> filename Sample.photo (Sample.uuid 1).
Proof.
  apply stored_names_differ.
  - apply own_property_allow_list. by eexists.
  - apply own_property_allow_list. by eexists.
  - by vm_compute.
  - by vm_compute.
  - by vm_compute.
Defined.

End NameFacts.

(** ** The bearer check and the file filter *)

Module CheckFacts.

Import Multer AuthFacts NamerFacts.

(** X1. The bearer check lets a request through exactly when a token is
    configured and the Authorization header is the word Bearer, one
    space, and that token, character for character. *)
Theorem bearer_check_passes_iff (cfg : config) (req : request) :
  requireBearer cfg req = None
  <-> TOKEN cfg <> []
      /\ authorization req = Some (lit "Bearer " ++ TOKEN cfg).
Proof. apply requireBearer_next. Qed.

(** X2. [DELETE /files/:name] stands behind the same check: without a
    configured token the answer is 500, with a token and an absent or
    different header it is 401, and in both cases nothing is unlinked. *)
Theorem delete_requires_bearer (cfg : config) (o : os) (req : request)
    (w : world) :
  (TOKEN cfg = [] ->
   delete_file cfg o req w
   = (Response 500 (JsonError (lit "UPLOAD_TOKEN not set")), w))
  /\ (TOKEN cfg <> [] ->
      authorization req <> Some (lit "Bearer " ++ TOKEN cfg) ->
      delete_file cfg o req w
      = (Response 401 (JsonError (lit "Unauthorized")), w)).
Proof.
  unfold delete_file. split.
  - intros Ht. by rewrite requireBearer_unset.
  - intros Ht Hh. by rewrite requireBearer_denied.
Qed.

(** X3. For a declared type of the form type/subtype, the file filter
    accepts the part exactly when the type is one of the four of the
    allow-list. *)
Theorem fileFilter_allow_list (p : part) :
  is_mime_type (mimetype p) = true ->
  (fileFilter p = None <-> mimetype p ∈ allow_list).
Proof.
  intros Hm. split.
  - intros Hf. destruct (decide (mimetype p ∈ allow_list)) as [|Hn]; [done|].
    by rewrite (UploadFacts.fileFilter_rejects p Hm Hn) in Hf.
  - apply UploadFacts.fileFilter_accepts.
Qed.

Lemma fileFilter_allow_list_witness :
  fileFilter Sample.document <> None.
Proof.
  intros H.
  apply (fileFilter_allow_list Sample.document eq_refl) in H.
  revert H. apply (bool_decide_unpack _). by vm_compute.
Defined.

End CheckFacts.

(** ** More on the upload route *)

Module UploadMore.

Import Multer AuthFacts NamerFacts UploadFacts.

(** *** Writing files *)

Lemma write_files_app (now : Z) (fs gs : list file)
    (d : gmap jsstring entry) :
  write_files now (fs ++ gs) d = write_files now gs (write_files now fs d).
Proof. unfold write_files. apply foldl_app. Qed.

Lemma write_files_lookup_ne (now : Z) (fs : list file)
    (d : gmap jsstring entry) (name : jsstring) :
  name ∉ f_filename <$> fs -> write_files now fs d !! name = d !! name.
Proof.
  revert d. induction fs as [|g fs IH]; intros d Hn; [done|].
  rewrite fmap_cons, not_elem_of_cons in Hn. destruct Hn as [Hg Hn].
  change (write_files now (g :: fs) d)
    with (write_files now fs
            (<[f_filename g := Entry RegularFile now (f_size g)]> d)).
  rewrite IH by done. by apply lookup_insert_ne.
Qed.

Lemma write_files_lookup (now : Z) (fs : list file)
    (d : gmap jsstring entry) (f : file) :
  NoDup (f_filename <$> fs) -> f ∈ fs ->
  write_files now fs d !! f_filename f
  = Some (Entry RegularFile now (f_size f)).
Proof.
  revert d. induction fs as [|g fs IH]; intros d Hnd Hf.
  - by apply elem_of_nil in Hf.
  - rewrite fmap_cons in Hnd. apply NoDup_cons in Hnd as [Hg Hnd].
    change (write_files now (g :: fs) d)
      with (write_files now fs
              (<[f_filename g := Entry RegularFile now (f_size g)]> d)).
    apply elem_of_cons in Hf as [->|Hf].
    + rewrite write_files_lookup_ne by done. apply lookup_insert_eq.
    + by apply IH.
Qed.

Section Engine.

Variable uuid : nat -> jsstring.
Variable now : Z.
Variable o : os.

(** Whenever the engine comes to the end of the parts without error,
    the files of the file parts are accepted, kept for removal and
    written, and one identifier is drawn for each. *)
Lemma on_parts_ok_state (ps : list part) (st st' : state) :
  on_parts uuid now o ps st = (st', None) ->
  accepted st'
  = accepted st ++ stored_files uuid (uuid_calls (st_world st)) ps
  /\ uploadedFiles st'
     = uploadedFiles st
       ++ stored_files uuid (uuid_calls (st_world st)) ps
  /\ st_world st'
     = World (write_files now
                (stored_files uuid (uuid_calls (st_world st)) ps)
                (dir (st_world st)))
             (uuid_calls (st_world st) + length (file_parts ps)).
Proof.
  revert st. induction ps as [|p ps IH]; intros st Hrun.
  - simpl in Hrun. injection Hrun as <-. simpl.
    rewrite !app_nil_r, Nat.add_0_r. by destruct (st_world st).
  - simpl in Hrun. rewrite file_parts_cons. cbn [stored_files].
    unfold on_file in Hrun.
    destruct (truthy (originalname p)) eqn:Hp; simpl in Hrun;
      [|by apply IH].
    destruct (_ <=? 0)%Z; [done|].
    destruct (fileFilter p); [done|].
    cbn [st_world filesLeft uploadedFiles accepted handled] in Hrun.
    destruct (write_fault o (Namer.filename p (uuid (uuid_calls (st_world st)))))
      as [wf|] eqn:Ew.
    { pose proof (handleFile_error uuid now o p fileSize (st_world st)) as E1.
      pose proof (handleFile_error uuid now o p (size p) (st_world st)) as E2.
      rewrite Ew in E1, E2. exfalso.
      destruct (fileSize <? size p)%Z.
      - by destruct (handleFile uuid now o p fileSize (st_world st))
          as [[? ?] [?|]].
      - by destruct (handleFile uuid now o p (size p) (st_world st))
          as [[? ?] [?|]]. }
    destruct (fileSize <? size p)%Z.
    { by rewrite (handleFile_ok uuid now o p fileSize _ Ew) in Hrun. }
    rewrite (handleFile_ok uuid now o p (size p) _ Ew) in Hrun.
    apply IH in Hrun as (Hacc & Hup & Hw).
    cbn [st_world uploadedFiles accepted dir uuid_calls] in Hacc, Hup, Hw.
    rewrite Hacc, Hup, Hw, <- !app_assoc. simpl.
    split; [done|]. split; [done|]. f_equal. lia.
Qed.

(** The engine on valid parts, with room left under every field and no
    write refused, comes to the end without error. *)
Lemma on_parts_valid_state (ps : list part) (st : state) :
  (forall n : jsstring, write_fault o n = None) ->
  (forall p, p ∈ file_parts ps -> valid_part p = true) ->
  (forall f, (Z.of_nat (count_field f ps)
              <= default 0 (filesLeft st !! f))%Z) ->
  exists st',
    on_parts uuid now o ps st = (st', None)
    /\ accepted st'
       = accepted st ++ stored_files uuid (uuid_calls (st_world st)) ps
    /\ uploadedFiles st'
       = uploadedFiles st
         ++ stored_files uuid (uuid_calls (st_world st)) ps
    /\ st_world st'
       = World (write_files now
                  (stored_files uuid (uuid_calls (st_world st)) ps)
                  (dir (st_world st)))
               (uuid_calls (st_world st) + length (file_parts ps)).
Proof.
  intros Hw Hval Hleft.
  destruct (on_parts_valid uuid now o ps st Hw Hval Hleft) as (st' & Hrun & _).
  exists st'. split; [done|]. by apply on_parts_ok_state.
Qed.

End Engine.

Section Failing.

Variable uuid : nat -> jsstring.
Variable now : Z.
Variable o : os.

(** A part that no state of the engine lets through stops the request,
    at the latest when its turn comes. *)
Lemma on_parts_stops (ps : list part) (p : part) (st : state) :
  p ∈ ps ->
  (forall st', (on_file uuid now o p st').2 <> None) ->
  exists e, (on_parts uuid now o ps st).2 = Some e.
Proof.
  intros Hin Hstop. revert st.
  induction ps as [|q ps IH]; intros st; [by apply elem_of_nil in Hin|].
  simpl. apply elem_of_cons in Hin as [<-|Hin].
  - specialize (Hstop st).
    destruct (on_file uuid now o p st) as [st' [e|]]; [by eexists | done].
  - destruct (on_file uuid now o q st) as [st' [e|]]; [by eexists|].
    by apply IH.
Qed.

Lemma on_file_too_large (p : part) (st : state) :
  truthy (originalname p) = true -> (fileSize < size p)%Z ->
  (on_file uuid now o p st).2 <> None.
Proof.
  intros Hp Hs. unfold on_file. rewrite Hp. simpl.
  destruct (_ <=? 0)%Z; [done|].
  destruct (fileFilter p); [done|].
  destruct (Z.ltb_spec fileSize (size p)); [|lia].
  by destruct (handleFile uuid now o p fileSize _) as [[? ?] [?|]].
Qed.

(** More file parts under a field than it has room left stop the
    request. *)
Lemma on_parts_over (ps : list part) (st : state) (f : jsstring) :
  (forall g, (0 <= default 0 (filesLeft st !! g))%Z) ->
  (default 0 (filesLeft st !! f) < Z.of_nat (count_field f ps))%Z ->
  exists e, (on_parts uuid now o ps st).2 = Some e.
Proof.
  revert st. induction ps as [|p ps IH]; intros st Hpos Hover.
  - unfold count_field in Hover. simpl in Hover.
    specialize (Hpos f). lia.
  - simpl. unfold on_file.
    destruct (truthy (originalname p)) eqn:Hp; simpl.
    + rewrite (count_field_cons _ _ _ Hp) in Hover.
      destruct (_ <=? 0)%Z eqn:Hz; [by eexists|]. apply Z.leb_gt in Hz.
      destruct (fileFilter p); [by eexists|].
      destruct (fileSize <? size p)%Z.
      { destruct (handleFile uuid now o p fileSize _) as [[? ?] [?|]];
          by eexists. }
      destruct (handleFile uuid now o p (size p) _) as [[? ?] [?|]];
        [by eexists|].
      apply IH; simpl.
      * intros g. destruct (decide (fieldname p = g)) as [<-|Hne].
        -- rewrite lookup_insert_eq. simpl. lia.
        -- rewrite lookup_insert_ne by done. apply Hpos.
      * destruct (decide (fieldname p = f)) as [<-|Hne].
        -- rewrite lookup_insert_eq. simpl.
           replace (str_eqb (fieldname p) (fieldname p)) with true in Hover
             by (symmetry; by apply str_eqb_eq).
           lia.
        -- rewrite lookup_insert_ne by done.
           destruct (str_eqb (fieldname p) f) eqn:Ef;
             [by apply str_eqb_eq in Ef | lia].
    + apply IH; [done|]. unfold count_field in *.
      by rewrite file_parts_cons, Hp in Hover.
Qed.

(** The parts given to the storage engine are parts of the body. *)
Lemma on_parts_handled_in (ps : list part) (st : state) (q : part) :
  q ∈ handled (on_parts uuid now o ps st).1 -> q ∈ handled st \/ q ∈ ps.
Proof.
  revert st. induction ps as [|p ps IH]; intros st Hq; [by left|].
  simpl in Hq.
  assert (Hstep : forall q', q' ∈ handled (on_file uuid now o p st).1 ->
                    q' ∈ handled st \/ q' = p).
  { intros q'. unfold on_file.
    destruct (truthy (originalname p)); simpl; [|by left].
    destruct (_ <=? 0)%Z; [by left|].
    destruct (fileFilter p); [by left|].
    destruct (fileSize <? size p)%Z;
      destruct (handleFile uuid now o p _ _) as [[? ?] [?|]]; simpl;
      rewrite elem_of_app, list_elem_of_singleton; tauto. }
  destruct (on_file uuid now o p st) as [st' [e|]]; simpl in *.
  - destruct (Hstep q Hq) as [?| ->]; [by left | right; by left].
  - destruct (IH st' Hq) as [H|H]; [|right; by right].
    destruct (Hstep q H) as [?| ->]; [by left | right; by left].
Qed.

End Failing.

Section Route.

Variable encodeURIComponent : jsstring -> jsstring.
Variable uuid : nat -> jsstring.
Variable cfg : config.
Variable o : os.
Variable now : Z.

(** An upload that multer lets through to the handler: every file part
    was stored. *)
Lemma post_upload_answered (req : request) (w : world) (ps : list part) :
  authorized cfg req ->
  multipart req = Some ps ->
  (run uuid now o ps w).2 = None ->
  post_upload encodeURIComponent uuid cfg o now req w
  = (upload_handler encodeURIComponent cfg req
       (Some (stored_files uuid (uuid_calls w) ps)),
     World (write_files now (stored_files uuid (uuid_calls w) ps) (dir w))
           (uuid_calls w + length (file_parts ps))).
Proof.
  intros Hauth Hparts Hok. unfold post_upload.
  rewrite (proj2 (requireBearer_next cfg req) Hauth), Hparts.
  unfold run in *.
  destruct (on_parts uuid now o ps (init w)) as [st [e|]] eqn:Hrun; [done|].
  apply on_parts_ok_state in Hrun as (Hacc & _ & Hw).
  simpl in Hacc, Hw. by rewrite Hacc, Hw.
Qed.

Lemma run_valid (w : world) (ps : list part) :
  valid_upload ps = true ->
  (forall n : jsstring, write_fault o n = None) ->
  (run uuid now o ps w).2 = None.
Proof.
  intros Hvalid Hwrite.
  pose proof (valid_upload_spec ps Hvalid) as (Hv & _ & _).
  destruct (on_parts_valid uuid now o ps (init w) Hwrite Hv
              (valid_upload_room w ps Hvalid))
    as (st & Hrun & _).
  unfold run. by rewrite Hrun.
Qed.

Lemma post_upload_valid (req : request) (w : world) (ps : list part) :
  authorized cfg req ->
  multipart req = Some ps ->
  valid_upload ps = true ->
  (forall n : jsstring, write_fault o n = None) ->
  post_upload encodeURIComponent uuid cfg o now req w
  = (upload_handler encodeURIComponent cfg req
       (Some (stored_files uuid (uuid_calls w) ps)),
     World (write_files now (stored_files uuid (uuid_calls w) ps) (dir w))
           (uuid_calls w + length (file_parts ps))).
Proof.
  intros Hauth Hparts Hvalid Hwrite.
  apply post_upload_answered; [done..|]. by apply run_valid.
Qed.

(** The handler on the stored files of a valid body. *)
Lemma upload_handler_stored (req : request) (n : nat) (ps : list part) :
  valid_upload ps = true ->
  upload_handler encodeURIComponent cfg req (Some (stored_files uuid n ps))
  = if (length (file_parts ps) =? 0)%nat
    then Response 400 (JsonError (lit "No files received"))
    else Response 200
           (JsonUploaded
              (entry_of encodeURIComponent (public_host cfg req)
                 <$> (files_of (lit "file") (stored_files uuid n ps)
                      ++ files_of (lit "files") (stored_files uuid n ps)))).
Proof.
  intros Hvalid. unfold upload_handler.
  rewrite !forEach_add_spec, app_nil_l, <- fmap_app.
  pose proof (valid_upload_spec ps Hvalid) as (Hv & _ & _).
  set (S := stored_files uuid n ps).
  assert (HL : files_of (lit "file") S ++ files_of (lit "files") S ≡ₚ S).
  { apply files_of_partition. intros f Hf.
    apply elem_of_stored_files in Hf as (p & k & Hp & _ & ->).
    by destruct (valid_part_spec p (Hv p Hp)) as (? & _). }
  assert (Hlen : length (entry_of encodeURIComponent (public_host cfg req)
                           <$> (files_of (lit "file") S
                                ++ files_of (lit "files") S))
                 = length (file_parts ps)).
  { rewrite length_fmap, HL. apply length_stored_files. }
  by rewrite Hlen.
Qed.

(** The counters multer starts with. *)
Lemma init_room (w : world) (f : jsstring) :
  default 0%Z (filesLeft (init w) !! f)
  = if decide (f = lit "file") then 1%Z
    else if decide (f = lit "files") then 20%Z else 0%Z.
Proof.
  unfold init. cbn [filesLeft]. unfold fields.
  rewrite !list_to_map_cons, list_to_map_nil.
  case_decide as H1; [subst f; by rewrite lookup_insert_eq|].
  rewrite lookup_insert_ne by done.
  case_decide as H2; [subst f; by rewrite lookup_insert_eq|].
  by rewrite lookup_insert_ne, lookup_empty by done.
Qed.

Lemma count_field_pos (p : part) (ps : list part) :
  p ∈ file_parts ps -> (1 <= count_field (fieldname p) ps)%nat.
Proof.
  unfold count_field. induction (file_parts ps) as [|q l IH]; intros Hin.
  - by apply elem_of_nil in Hin.
  - simpl. apply elem_of_cons in Hin as [<-|Hin].
    + replace (str_eqb (fieldname p) (fieldname p)) with true
        by (symmetry; by apply str_eqb_eq).
      simpl. lia.
    + specialize (IH Hin). destruct (str_eqb _ _); simpl; lia.
Qed.

Lemma post_upload_error (req : request) (w : world) (ps : list part) :
  authorized cfg req ->
  multipart req = Some ps ->
  (exists e, (on_parts uuid now o ps (init w)).2 = Some e) ->
  status (post_upload encodeURIComponent uuid cfg o now req w).1 = 500%Z
  /\ exists e, (run uuid now o ps w).2 = Some e.
Proof.
  intros Hauth Hparts [e He]. unfold post_upload.
  rewrite (proj2 (requireBearer_next cfg req) Hauth), Hparts.
  unfold run. destruct (on_parts uuid now o ps (init w)) as [st oe].
  simpl in He. subst oe. simpl. split; [done | by eexists].
Qed.

Lemma upload_response_order_lemma (req : request) (w : world) :
  let parts := default [] (multipart req) in
  let stored := stored_files uuid (uuid_calls w) parts in
  authorized cfg req ->
  valid_upload parts = true ->
  (forall n : jsstring, write_fault o n = None) ->
  (post_upload encodeURIComponent uuid cfg o now req w).1
  = if (length (file_parts parts) =? 0)%nat
    then Response 400 (JsonError (lit "No files received"))
    else Response 200
           (JsonUploaded
              (entry_of encodeURIComponent (public_host cfg req)
                 <$> (files_of (lit "file") stored
                      ++ files_of (lit "files") stored))).
Proof.
  intros parts stored Hauth Hvalid Hwrite.
  destruct (multipart req) as [ps|] eqn:Eparts; simpl in parts.
  2:{ unfold post_upload.
      by rewrite (proj2 (requireBearer_next cfg req) Hauth), Eparts. }
  subst parts stored.
  rewrite (post_upload_valid req w ps Hauth Eparts Hvalid Hwrite).
  simpl fst. by apply upload_handler_stored.
Qed.

(** An upload of a valid body that was answered 200: the answer and the
    world after it. *)
Lemma upload_answered (req : request) (w : world)
    (entries : list uploaded_entry) :
  authorized cfg req ->
  valid_upload (default [] (multipart req)) = true ->
  (post_upload encodeURIComponent uuid cfg o now req w).1
  = Response 200 (JsonUploaded entries) ->
  exists ps : list part,
    multipart req = Some ps
    /\ entries
       = (entry_of encodeURIComponent (public_host cfg req)
            <$> (files_of (lit "file") (stored_files uuid (uuid_calls w) ps)
                 ++ files_of (lit "files")
                             (stored_files uuid (uuid_calls w) ps)))
    /\ (post_upload encodeURIComponent uuid cfg o now req w).2
       = World (write_files now (stored_files uuid (uuid_calls w) ps) (dir w))
               (uuid_calls w + length (file_parts ps)).
Proof.
  intros Hauth Hvalid Hresp.
  destruct (multipart req) as [ps|] eqn:Eparts; simpl in Hvalid.
  2:{ unfold post_upload in Hresp.
      by rewrite (proj2 (requireBearer_next cfg req) Hauth), Eparts in Hresp. }
  exists ps. split; [done|].
  destruct ((run uuid now o ps w).2) as [e|] eqn:Hrun.
  { exfalso. unfold post_upload in Hresp.
    rewrite (proj2 (requireBearer_next cfg req) Hauth), Eparts in Hresp.
    destruct (run uuid now o ps w) as [st oe]. simpl in Hrun. subst oe.
    simpl in Hresp. discriminate Hresp. }
  rewrite (post_upload_answered req w ps Hauth Eparts Hrun) in Hresp |- *.
  simpl in Hresp |- *. rewrite (upload_handler_stored req _ ps Hvalid) in Hresp.
  destruct (length (file_parts ps) =? 0)%nat; [done|].
  split; [|done]. by injection Hresp as <-.
Qed.

(** X7. A valid body whose writes the system does not refuse is
    answered in a fixed order: the file sent under [file] first, then the
    files sent under [files] in the order of their parts, wherever the
    [file] part stood in the body; each entry is made of the stored file's
    name, size and declared type. *)
Theorem upload_response_order (req : request) (w : world) :
  let parts := default [] (multipart req) in
  let stored := stored_files uuid (uuid_calls w) parts in
  authorized cfg req ->
  valid_upload parts = true ->
  (forall n : jsstring, write_fault o n = None) ->
  (post_upload encodeURIComponent uuid cfg o now req w).1
  = if (length (file_parts parts) =? 0)%nat
    then Response 400 (JsonError (lit "No files received"))
    else Response 200
           (JsonUploaded
              (entry_of encodeURIComponent (public_host cfg req)
                 <$> (files_of (lit "file") stored
                      ++ files_of (lit "files") stored))).
Proof. apply upload_response_order_lemma. Qed.

(** X8. After a valid upload whose writes the system does not refuse
    and whose identifiers are well-formed and pairwise different, every
    entry of the answer names a regular file of
    the storage directory with the reported size and the time of the
    request as modification time; every other name of the directory is
    as before, and one identifier was drawn per file. *)
Theorem upload_writes_what_it_reports (req : request) (w : world) :
  let parts := default [] (multipart req) in
  let N := length (file_parts parts) in
  let resp := (post_upload encodeURIComponent uuid cfg o now req w).1 in
  let w' := (post_upload encodeURIComponent uuid cfg o now req w).2 in
  authorized cfg req ->
  valid_upload parts = true ->
  (forall n : jsstring, write_fault o n = None) ->
  (forall k : nat, Namer.uuid_shaped (uuid k) = true) ->
  NoDup (uuid <$> seq (uuid_calls w) N) ->
  uuid_calls w' = (uuid_calls w + N)%nat
  /\ forall entries : list uploaded_entry,
       resp = Response 200 (JsonUploaded entries) ->
       (forall u, u ∈ entries ->
          dir w' !! u_filename u
          = Some (Entry RegularFile now (u_size u)))
       /\ (forall name, name ∉ u_filename <$> entries ->
             dir w' !! name = dir w !! name).
Proof.
  intros parts N resp w' Hauth Hvalid Hwrite Hshape Hnd. subst resp w'.
  pose proof (upload_response_order_lemma req w Hauth Hvalid Hwrite) as Hresp.
  fold parts in Hresp. fold N in Hresp.
  destruct (multipart req) as [ps|] eqn:Eparts; simpl in parts.
  2:{ subst N parts. rewrite Hresp. simpl.
      unfold post_upload.
      rewrite (proj2 (requireBearer_next cfg req) Hauth), Eparts.
      split; [simpl; lia | done]. }
  subst parts. rewrite Hresp.
  rewrite (post_upload_valid req w ps Hauth Eparts Hvalid Hwrite). simpl snd.
  split; [done|].
  pose proof (valid_upload_spec ps Hvalid) as (Hv & _ & _).
  set (S := stored_files uuid (uuid_calls w) ps) in *.
  assert (HL : files_of (lit "file") S ++ files_of (lit "files") S ≡ₚ S).
  { apply files_of_partition. intros f Hf.
    apply elem_of_stored_files in Hf as (p & k & Hp & _ & ->).
    by destruct (valid_part_spec p (Hv p Hp)) as (? & _). }
  assert (HS : NoDup (f_filename <$> S)).
  { apply NoDup_stored_files; [|done..].
    intros p Hp. by destruct (valid_part_spec p (Hv p Hp)) as (_ & ? & _). }
  intros entries He. destruct (N =? 0)%nat; [done|].
  injection He as <-. simpl. split.
  - intros u Hu. apply list_elem_of_fmap in Hu as (f & -> & Hf).
    rewrite HL in Hf. simpl. by apply write_files_lookup.
  - intros name Hn. apply write_files_lookup_ne. intros Hin. apply Hn.
    rewrite <- list_fmap_compose.
    change (u_filename ∘ entry_of encodeURIComponent (public_host cfg req))
      with f_filename.
    by rewrite HL.
Qed.

(** X9. Whatever the request (authorized or not, valid or not, ending
    in an answer or in an error), [POST /upload] changes the storage
    directory only at names that the namer made for parts of this very
    body that passed the file filter: no other existing file is
    overwritten or removed. *)
Theorem upload_touches_only_its_names (req : request) (w : world)
    (name : jsstring) :
  dir (post_upload encodeURIComponent uuid cfg o now req w).2 !! name
  <> dir w !! name ->
  exists (ps : list part) (p : part) (k : nat),
    multipart req = Some ps /\ p ∈ ps /\ fileFilter p = None
    /\ name = Namer.filename p (uuid k).
Proof.
  unfold post_upload. destruct (requireBearer cfg req); [done|].
  destruct (multipart req) as [ps|]; [|done].
  pose proof (run_inv uuid now o w ps) as (Hf & _ & Hd).
  pose proof (on_parts_handled_in uuid now o ps (init w)) as Hin.
  intros Hne.
  assert (Hna : named_after uuid (handled (run uuid now o ps w).1) name).
  { apply Hd. by destruct (run uuid now o ps w) as [st [e|]]. }
  destruct Hna as (q & k & Hq & ->).
  exists ps, q, k. split; [done|]. split; [|split; [by apply Hf | done]].
  assert (Hh : handled (run uuid now o ps w).1
               = handled (on_parts uuid now o ps (init w)).1).
  { unfold run. by destruct (on_parts uuid now o ps (init w)) as [st [e|]]. }
  rewrite Hh in Hq. destruct (Hin q Hq) as [H|H]; [|done].
  by apply elem_of_nil in H.
Qed.

(** X10. A body with two file parts under [file], or twenty-one under
    [files], or a file part under any other field, is refused whole: the
    answer is Express's 500 for the error multer raised. *)
Theorem upload_over_the_caps (req : request) (w : world) (ps : list part) :
  authorized cfg req ->
  multipart req = Some ps ->
  (2 <= count_field (lit "file") ps)%nat
  \/ (21 <= count_field (lit "files") ps)%nat
  \/ (exists p, p ∈ file_parts ps
                /\ fieldname p <> lit "file"
                /\ fieldname p <> lit "files") ->
  status (post_upload encodeURIComponent uuid cfg o now req w).1 = 500%Z
  /\ exists e, (run uuid now o ps w).2 = Some e.
Proof.
  intros Hauth Hparts Hover. apply post_upload_error; [done..|].
  assert (Hpos : forall g, (0 <= default 0 (filesLeft (init w) !! g))%Z).
  { intros g. rewrite init_room. repeat case_decide; lia. }
  destruct Hover as [H|[H|(p & Hp & H1 & H2)]].
  - apply (on_parts_over uuid now o ps (init w) (lit "file") Hpos).
    rewrite init_room. simpl. lia.
  - apply (on_parts_over uuid now o ps (init w) (lit "files") Hpos).
    rewrite init_room. simpl. lia.
  - apply (on_parts_over uuid now o ps (init w) (fieldname p) Hpos).
    rewrite init_room. pose proof (count_field_pos p ps Hp).
    repeat case_decide; try done; lia.
Qed.

(** X11. A body with a file part of more than 500 MiB is refused
    whole: the answer is Express's 500 for the error multer raised. *)
Theorem upload_too_large (req : request) (w : world) (ps : list part)
    (p : part) :
  authorized cfg req ->
  multipart req = Some ps ->
  p ∈ ps -> truthy (originalname p) = true ->
  (500 * 1024 * 1024 < size p)%Z ->
  status (post_upload encodeURIComponent uuid cfg o now req w).1 = 500%Z
  /\ exists e, (run uuid now o ps w).2 = Some e.
Proof.
  intros Hauth Hparts Hin Hp Hs. apply post_upload_error; [done..|].
  apply (on_parts_stops uuid now o ps p); [done|].
  intros st'. by apply on_file_too_large.
Qed.

(** X13. Upload, then delete: [DELETE /files/:name] with the filename
    of an entry that a valid upload just returned, on a system that does
    not refuse the unlink, answers 200 with that same name and takes
    exactly that file out of the storage directory. *)
Theorem delete_after_upload (req del : request) (w : world)
    (entries : list uploaded_entry) (u : uploaded_entry) :
  let parts := default [] (multipart req) in
  let w1 := (post_upload encodeURIComponent uuid cfg o now req w).2 in
  authorized cfg req ->
  valid_upload parts = true ->
  (forall k : nat, Namer.uuid_shaped (uuid k) = true) ->
  NoDup (uuid <$> seq (uuid_calls w) (length (file_parts parts))) ->
  (post_upload encodeURIComponent uuid cfg o now req w).1
  = Response 200 (JsonUploaded entries) ->
  u ∈ entries ->
  authorized cfg del ->
  param_name del = u_filename u ->
  unlink_fault o (u_filename u) = None ->
  delete_file cfg o del w1
  = (Response 200 (JsonDeleted (u_filename u)),
     World (delete (u_filename u) (dir w1)) (uuid_calls w1)).
Proof.
  intros parts w1 Hauth Hvalid Hshape Hnd Hresp Hu Hdel Hparam Hfault.
  destruct (upload_answered req w entries Hauth Hvalid Hresp)
    as (ps & Eparts & -> & Hw1).
  subst parts w1. rewrite Eparts in Hvalid, Hnd. simpl in Hvalid, Hnd.
  rewrite Hw1. cbn [dir uuid_calls].
  pose proof (valid_upload_spec ps Hvalid) as (Hv & _ & _).
  set (S := stored_files uuid (uuid_calls w) ps) in *.
  assert (HL : files_of (lit "file") S ++ files_of (lit "files") S ≡ₚ S).
  { apply files_of_partition. intros f Hf.
    apply elem_of_stored_files in Hf as (p & k & Hp & _ & ->).
    by destruct (valid_part_spec p (Hv p Hp)) as (? & _). }
  assert (HS : NoDup (f_filename <$> S)).
  { apply NoDup_stored_files; [|done..].
    intros p Hp. by destruct (valid_part_spec p (Hv p Hp)) as (_ & ? & _). }
  apply list_elem_of_fmap in Hu as (f & -> & Hf). rewrite HL in Hf.
  cbn [u_filename entry_of] in *.
  assert (Hw : write_files now S (dir w) !! f_filename f
               = Some (Entry RegularFile now (f_size f))).
  { by apply write_files_lookup. }
  assert (Hname : exists p k, f_filename f = Namer.filename p (uuid k)).
  { apply elem_of_stored_files in Hf as (p & k & _ & _ & ->).
    by exists p, k. }
  destruct Hname as (p & k & Hname).
  destruct (NameFacts.stored_name_facts p (uuid k)) as (_ & Hal & Hbase).
  { apply NameFacts.uuid_shaped_no_slash, Hshape. }
  rewrite <- Hname in Hal, Hbase.
  unfold delete_file.
  rewrite (proj2 (requireBearer_next cfg del) Hdel), Hparam, Hbase.
  unfold unlink. cbn [dir uuid_calls]. by rewrite Hal, Hfault, Hw.
Qed.

End Route.

(** *** The theorems on sample requests *)

Lemma upload_response_order_witness :
  (post_upload Sample.encode_unreserved Sample.uuid Sample.cfg Sample.quiet
               Sample.now (Sample.upload [Sample.clip; Sample.photo])
               Sample.empty_world).1
  = Response 200
      (JsonUploaded
         [ UploadedEntry
             (lit "https://files.example/files/my_photo_6ec0bd7f-11c0-43da-975e-2a8ad9ebae0b.png")
             (lit "my_photo_6ec0bd7f-11c0-43da-975e-2a8ad9ebae0b.png")
             1024 (lit "image/png");
           UploadedEntry
             (lit "https://files.example/files/clip_1b9d6bcd-bbfd-4b2d-9b5d-ab8dfbbd4bed.mp4")
             (lit "clip_1b9d6bcd-bbfd-4b2d-9b5d-ab8dfbbd4bed.mp4")
             2048 (lit "video/mp4") ]).
Proof.
  rewrite (upload_response_order Sample.encode_unreserved Sample.uuid
             Sample.cfg Sample.quiet Sample.now
             (Sample.upload [Sample.clip; Sample.photo]) Sample.empty_world).
  - by vm_compute.
  - apply sample_upload_authorized.
  - by vm_compute.
  - done.
Defined.

Lemma upload_writes_what_it_reports_witness :
  uuid_calls (post_upload Sample.encode_unreserved Sample.uuid Sample.cfg
                Sample.quiet Sample.now
                (Sample.upload [Sample.photo; Sample.clip])
                Sample.empty_world).2 = 2%nat.
Proof.
  destruct (upload_writes_what_it_reports Sample.encode_unreserved
              Sample.uuid Sample.cfg Sample.quiet Sample.now
              (Sample.upload [Sample.photo; Sample.clip])
              Sample.empty_world) as [H _].
  - apply sample_upload_authorized.
  - by vm_compute.
  - done.
  - intros [|[|k]]; by vm_compute.
  - apply (bool_decide_unpack _). by vm_compute.
  - exact H.
Defined.

Lemma upload_touches_only_its_names_witness :
  exists (ps : list part) (p : part) (k : nat),
    multipart (Sample.upload [Sample.photo]) = Some ps /\ p ∈ ps
    /\ fileFilter p = None
    /\ lit "my_photo_1b9d6bcd-bbfd-4b2d-9b5d-ab8dfbbd4bed.png"
       = Namer.filename p (Sample.uuid k).
Proof.
  apply (upload_touches_only_its_names Sample.encode_unreserved Sample.uuid
           Sample.cfg Sample.quiet Sample.now (Sample.upload [Sample.photo])
           Sample.empty_world).
  by vm_compute.
Defined.

Lemma upload_over_the_caps_witness :
  status (post_upload Sample.encode_unreserved Sample.uuid Sample.cfg
            Sample.quiet Sample.now
            (Sample.upload [Sample.photo; MoreSamples.second_photo])
            Sample.empty_world).1 = 500%Z.
Proof.
  destruct (upload_over_the_caps Sample.encode_unreserved Sample.uuid
              Sample.cfg Sample.quiet Sample.now
              (Sample.upload [Sample.photo; MoreSamples.second_photo])
              Sample.empty_world [Sample.photo; MoreSamples.second_photo])
    as [H _].
  - apply sample_upload_authorized.
  - reflexivity.
  - left. vm_compute. lia.
  - exact H.
Defined.

Lemma upload_too_large_witness :
  status (post_upload Sample.encode_unreserved Sample.uuid Sample.cfg
            Sample.quiet Sample.now
            (Sample.upload [Sample.clip; MoreSamples.huge])
            Sample.empty_world).1 = 500%Z.
Proof.
  destruct (upload_too_large Sample.encode_unreserved Sample.uuid
              Sample.cfg Sample.quiet Sample.now
              (Sample.upload [Sample.clip; MoreSamples.huge])
              Sample.empty_world [Sample.clip; MoreSamples.huge]
              MoreSamples.huge) as [H _].
  - apply sample_upload_authorized.
  - reflexivity.
  - right. by left.
  - by vm_compute.
  - by vm_compute.
  - exact H.
Defined.

(** A picture with a name of 304 units on a file system that takes 255:
    the stream cannot be opened, the answer is Express's 500 with the
    error of the stream, an identifier was drawn and nothing is stored. *)
Example long_name_refused :
  post_upload Sample.encode_unreserved Sample.uuid Sample.cfg
    MoreSamples.short_names Sample.now
    (Sample.upload [MoreSamples.long_named]) Sample.empty_world
  = (Response 500 (ErrorPage (lit "ENAMETOOLONG: name too long")),
     World ∅ 1).
Proof. by vm_compute. Qed.

Lemma delete_after_upload_witness :
  delete_file Sample.cfg Sample.quiet
    (Sample.deletion MoreSamples.stored_name)
    (post_upload Sample.encode_unreserved Sample.uuid Sample.cfg Sample.quiet
       Sample.now (Sample.upload [Sample.photo]) Sample.empty_world).2
  = (Response 200 (JsonDeleted MoreSamples.stored_name), World ∅ 1).
Proof.
  rewrite (delete_after_upload Sample.encode_unreserved Sample.uuid
             Sample.cfg Sample.quiet Sample.now
             (Sample.upload [Sample.photo])
             (Sample.deletion MoreSamples.stored_name) Sample.empty_world
             [UploadedEntry
                (lit "https://files.example/files/my_photo_1b9d6bcd-bbfd-4b2d-9b5d-ab8dfbbd4bed.png")
                MoreSamples.stored_name 1024 (lit "image/png")]
             (UploadedEntry
                (lit "https://files.example/files/my_photo_1b9d6bcd-bbfd-4b2d-9b5d-ab8dfbbd4bed.png")
                MoreSamples.stored_name 1024 (lit "image/png"))).
  - by vm_compute.
  - apply sample_upload_authorized.
  - by vm_compute.
  - intros [|[|k]]; by vm_compute.
  - apply (bool_decide_unpack _). by vm_compute.
  - by vm_compute.
  - by left.
  - apply sample_deletion_authorized.
  - reflexivity.
  - reflexivity.
Defined.

End UploadMore.

(** ** More on deleting *)

Module DeleteMore.

Import Path AuthFacts DeleteFacts.

(** X14. [DELETE /files/:name] never removes a directory: a
    subdirectory of the storage directory survives every request, and a
    parameter whose base name is empty, [.] or [..] (the storage directory
    itself or its parent) is answered 500 with the directory
    untouched. *)
Theorem delete_keeps_directories (cfg : config) (o : os) (req : request)
    (w : world) :
  (forall (x : jsstring) (e : entry),
     dir w !! x = Some e -> e_kind e = Directory ->
     dir (delete_file cfg o req w).2 !! x = Some e)
  /\ (authorized cfg req ->
      names_directory (basename (param_name req) None) = true ->
      status (delete_file cfg o req w).1 = 500%Z
      /\ (delete_file cfg o req w).2 = w).
Proof.
  split.
  - intros x e Hx Hk. unfold delete_file.
    destruct (requireBearer cfg req); [done|].
    set (name := basename (param_name req) None).
    destruct (unlink o (dir w) name) as [err|d'] eqn:Eu.
    + by destruct (negb _).
    + simpl. destruct (decide (x = name)) as [->|Hne].
      * exfalso. unfold unlink in Eu.
        destruct (names_directory name); [done|].
        destruct (unlink_fault o name); [done|].
        rewrite Hx, Hk in Eu. done.
      * by rewrite (unlink_other o _ _ name x Eu Hne).
  - intros Hauth Hn. unfold delete_file.
    rewrite (proj2 (requireBearer_next cfg req) Hauth).
    unfold unlink. rewrite Hn. by vm_compute.
Qed.

Lemma delete_keeps_directories_witness :
  dir (delete_file Sample.cfg Sample.quiet (Sample.deletion (lit "sub"))
         MoreSamples.one_file).2 !! lit "sub"
  = Some (Entry Directory 1 0)
  /\ status (delete_file Sample.cfg Sample.quiet (Sample.deletion (lit ".."))
               MoreSamples.one_file).1 = 500%Z.
Proof.
  split.
  - apply (proj1 (delete_keeps_directories Sample.cfg Sample.quiet
                    (Sample.deletion (lit "sub")) MoreSamples.one_file));
      [by vm_compute | reflexivity].
  - apply (proj2 (delete_keeps_directories Sample.cfg Sample.quiet
                    (Sample.deletion (lit "..")) MoreSamples.one_file));
      [apply sample_deletion_authorized | by vm_compute].
Defined.

End DeleteMore.

(** ** More on the retention sweep *)

Module SweepMore.

Import SweepFacts DeleteFacts.

Section Loop.

Variable o : os.
Variable now : Z.
Variable maxAgeMs : Z.
Variable d : gmap jsstring entry.

Lemma sweep_inv_init : sweep_inv d now maxAgeMs (Sweep d 0 []).
Proof.
  split; [by left|]. split; [|done].
  intros x Hx. by apply elem_of_nil in Hx.
Qed.

(** Whatever fails, the loop keeps the invariant. *)
Lemma sweep_entries_inv (entries : list (jsstring * kind)) (s : sweep) :
  (forall name k e, (name, k) ∈ entries -> d !! name = Some e ->
     e_kind e = k) ->
  sweep_inv d now maxAgeMs s ->
  sweep_inv d now maxAgeMs (sweep_entries o now maxAgeMs entries s).1.
Proof.
  revert s. induction entries as [|[name k] rest IH]; intros s Hk Hinv;
    [done|].
  assert (Hk' : forall name k e, (name, k) ∈ rest -> d !! name = Some e ->
                  e_kind e = k).
  { intros n' k' e' Hin. apply Hk. by right. }
  simpl. destruct (isFile k) eqn:Ef; simpl; [|by apply IH].
  unfold stat. destruct (stat_fault o name); [done|].
  destruct (sw_dir s !! name) as [e|] eqn:He; [|done].
  destruct (maxAgeMs <? now - mtimeMs e)%Z eqn:Eold; [|by apply IH].
  apply IH; [done|].
  destruct Hinv as (Hd & Hu & Hr).
  assert (Hde : d !! name = Some e).
  { destruct (Hd name) as [E|[E _]]; congruence. }
  assert (Hdue : is_due d now maxAgeMs name = true).
  { unfold is_due. rewrite Hde, (Hk name k e), Ef, Eold; [done | by left | done]. }
  split; [|split]; simpl.
  - intros x. destruct (unlink o (sw_dir s) name) as [err|d'] eqn:Eu;
      [apply Hd|].
    destruct (decide (x = name)) as [->|Hne].
    + right. split; [|done].
      apply unlink_ok_delete in Eu as (-> & _ & _). apply lookup_delete_eq.
    + rewrite (unlink_other o _ _ name x Eu Hne). apply Hd.
  - intros x. rewrite elem_of_app, list_elem_of_singleton.
    intros [Hx| ->]; [by apply Hu | done].
  - rewrite length_app. simpl. lia.
Qed.

(** The names unlinked are pairwise different when the names listed
    are. *)
Lemma sweep_entries_NoDup (entries : list (jsstring * kind)) (s : sweep) :
  NoDup (unlinked s ++ entries.*1) ->
  NoDup (unlinked (sweep_entries o now maxAgeMs entries s).1).
Proof.
  revert s. induction entries as [|[name k] rest IH]; intros s Hnd.
  - simpl in *. by rewrite app_nil_r in Hnd.
  - rewrite fmap_cons in Hnd. simpl in Hnd.
    assert (Hskip : NoDup (unlinked s ++ rest.*1)).
    { apply NoDup_app in Hnd as (H1 & H2 & H3).
      apply NoDup_cons in H3 as [_ H3].
      apply NoDup_app. split; [done|]. split; [|done].
      intros x Hx Hin. apply (H2 x Hx). by right. }
    simpl. destruct (isFile k); simpl; [|by apply IH].
    destruct (stat o (sw_dir s) name) as [err|st]; simpl.
    { apply NoDup_app in Hnd as (H1 & _). done. }
    destruct (maxAgeMs <? now - mtimeMs st)%Z; [|by apply IH].
    apply IH. simpl. by rewrite <- app_assoc.
Qed.

(** A regular file that [stat] fails on ends the loop with an error,
    unless an earlier one did. *)
Lemma sweep_entries_stat_error (entries : list (jsstring * kind))
    (s : sweep) (x : jsstring) (err : fs_error) :
  (x, RegularFile) ∈ entries -> stat_fault o x = Some err ->
  exists e', (sweep_entries o now maxAgeMs entries s).2 = Some e'.
Proof.
  intros Hin Hf. revert s.
  induction entries as [|[name k] rest IH]; intros s;
    [by apply elem_of_nil in Hin|].
  simpl. apply elem_of_cons in Hin as [[= <- <-]|Hin].
  - simpl. unfold stat. rewrite Hf. by eexists.
  - destruct (isFile k); simpl; [|by apply IH].
    destruct (stat o (sw_dir s) name) as [e0|st]; [by eexists|].
    destruct (maxAgeMs <? now - mtimeMs st)%Z; by apply IH.
Qed.

End Loop.

Lemma readdir_kinds (d : gmap jsstring entry) (name : jsstring) (k : kind)
    (e : entry) :
  (name, k) ∈ ((fun ne : jsstring * entry => (ne.1, e_kind ne.2))
                 <$> map_to_list d) ->
  d !! name = Some e -> e_kind e = k.
Proof.
  intros Hin He. destruct (readdir_entries d) as (_ & Hent & _).
  destruct (Hent name k Hin) as (e' & He' & Hk). congruence.
Qed.

Lemma cleanOldFiles_inv (cfg : config) (o : os) (now : Z)
    (d : gmap jsstring entry) :
  sweep_inv d now (MAX_AGE_HOURS cfg * 60 * 60 * 1000)
            (cleanOldFiles cfg o now d).1
  /\ NoDup (unlinked (cleanOldFiles cfg o now d).1).
Proof.
  unfold cleanOldFiles, readdir.
  destruct (readdir_fault o).
  { split; [apply sweep_inv_init | constructor]. }
  set (entries := _ <$> map_to_list d).
  pose proof (sweep_entries_inv o now (MAX_AGE_HOURS cfg * 60 * 60 * 1000) d
                entries (Sweep d 0 [])
                (fun name k e => readdir_kinds d name k e)
                (sweep_inv_init _ _ _)) as Hinv.
  pose proof (sweep_entries_NoDup o now (MAX_AGE_HOURS cfg * 60 * 60 * 1000)
                entries (Sweep d 0 [])) as Hnd.
  destruct (sweep_entries _ _ _ _ _) as [s [err|]]; simpl in *.
  - split; [done|]. apply Hnd. by destruct (readdir_entries d) as (? & _).
  - split; [done|]. apply Hnd. by destruct (readdir_entries d) as (? & _).
Qed.

(** X15. Whatever fails (the listing, a [stat], an [unlink]), a sweep
    only ever takes away regular files whose age is strictly above the
    threshold: every entry left is an entry of before, unchanged, and every
    entry gone or unlinked was a regular file past the age.  Young files,
    subdirectories and links are never touched. *)
Theorem sweep_is_safe (cfg : config) (o : os) (now : Z)
    (d : gmap jsstring entry) :
  let maxAgeMs := (MAX_AGE_HOURS cfg * 60 * 60 * 1000)%Z in
  let s := (cleanOldFiles cfg o now d).1 in
  (forall (x : jsstring) (e : entry),
     sw_dir s !! x = Some e -> d !! x = Some e)
  /\ (forall (x : jsstring) (e : entry),
        d !! x = Some e -> sw_dir s !! x = None ->
        e_kind e = RegularFile /\ (maxAgeMs < now - mtimeMs e)%Z)
  /\ (forall x : jsstring,
        x ∈ unlinked s ->
        exists e : entry,
          d !! x = Some e /\ e_kind e = RegularFile
          /\ (maxAgeMs < now - mtimeMs e)%Z).
Proof.
  intros maxAgeMs s.
  destruct (cleanOldFiles_inv cfg o now d) as [(Hd & Hu & _) _].
  fold maxAgeMs s in Hd, Hu. split; [|split].
  - intros x e He. destruct (Hd x) as [E|[E _]]; congruence.
  - intros x e He Hn. destruct (Hd x) as [E|[_ Hdue]]; [congruence|].
    apply is_due_true in Hdue as (e' & He' & Hk & Hlt).
    rewrite He in He'. by injection He' as <-.
  - intros x Hx. by apply is_due_true, Hu.
Qed.

(** X16. The count the sweep keeps is the number of names it called
    [unlink] on, each once, whether or not the deletion succeeded; unless
    an error is logged, the log is that count when it is positive and
    nothing otherwise. *)
Theorem sweep_counts_attempts (cfg : config) (o : os) (now : Z)
    (d : gmap jsstring entry) :
  let s := (cleanOldFiles cfg o now d).1 in
  let log := (cleanOldFiles cfg o now d).2 in
  removed s = length (unlinked s)
  /\ NoDup (unlinked s)
  /\ ((exists m, log = [LogError m])
      \/ log = if (0 <? length (unlinked s))%nat
               then [LogRemoved (length (unlinked s))] else []).
Proof.
  intros s log.
  destruct (cleanOldFiles_inv cfg o now d) as [(_ & _ & Hr) Hnd].
  fold s in Hr, Hnd. split; [done|]. split; [done|].
  subst s log. revert Hr. unfold cleanOldFiles.
  destruct (readdir o d); [left; by eexists|].
  destruct (sweep_entries _ _ _ _ _) as [s [err|]]; simpl.
  - left. by eexists.
  - intros ->. by right.
Qed.

(** X17. Errors of the scan are logged and end it: when the directory
    cannot be listed nothing is examined or unlinked, and when [stat]
    fails on a regular file of the directory the log is one error line
    instead of a count. *)
Theorem sweep_logs_scan_errors (cfg : config) (o : os) (now : Z)
    (d : gmap jsstring entry) :
  (forall err : fs_error,
     readdir_fault o = Some err ->
     cleanOldFiles cfg o now d = (Sweep d 0 [], [LogError (message err)]))
  /\ (readdir_fault o = None ->
      forall (x : jsstring) (e : entry) (err : fs_error),
        d !! x = Some e -> e_kind e = RegularFile ->
        stat_fault o x = Some err ->
        exists m, (cleanOldFiles cfg o now d).2 = [LogError m]).
Proof.
  split.
  - intros err Hr. unfold cleanOldFiles, readdir. by rewrite Hr.
  - intros Hr x e err He Hk Hf. unfold cleanOldFiles, readdir. rewrite Hr.
    set (entries := _ <$> map_to_list d).
    destruct (sweep_entries_stat_error o now
                (MAX_AGE_HOURS cfg * 60 * 60 * 1000) entries (Sweep d 0 [])
                x err) as [e' He']; [|done|].
    + subst entries. apply list_elem_of_fmap. exists (x, e).
      split; [by rewrite <- Hk|]. by apply elem_of_map_to_list.
    + destruct (sweep_entries _ _ _ _ _) as [s oe]. simpl in He'. subst oe.
      by eexists.
Qed.

Lemma sweep_logs_scan_errors_witness :
  cleanOldFiles Sample.cfg MoreSamples.closed Sample.now Sample.shelf
  = (Sweep Sample.shelf 0 [], [LogError (lit "EACCES: permission denied")])
  /\ exists m, (cleanOldFiles Sample.cfg MoreSamples.blind Sample.now
                  Sample.shelf).2 = [LogError m].
Proof.
  split.
  - apply (proj1 (sweep_logs_scan_errors Sample.cfg MoreSamples.closed
                    Sample.now Sample.shelf)
             (FsError (lit "EACCES") (lit "EACCES: permission denied"))).
    reflexivity.
  - apply (proj2 (sweep_logs_scan_errors Sample.cfg MoreSamples.blind
                    Sample.now Sample.shelf) eq_refl
             (lit "old.png") (Entry RegularFile (75 * 3600000) 10)
             (FsError (lit "EIO") (lit "EIO: i/o error")));
      [by vm_compute | reflexivity | by vm_compute].
Defined.

(** What a sweep does when the listing and every [stat] succeed. *)
Lemma cleanOldFiles_spec (cfg : config) (o : os) (now : Z)
    (d : gmap jsstring entry) :
  readdir_fault o = None ->
  (forall n : jsstring, stat_fault o n = None) ->
  let maxAgeMs := (MAX_AGE_HOURS cfg * 60 * 60 * 1000)%Z in
  let s := (cleanOldFiles cfg o now d).1 in
  (forall x, x ∈ unlinked s <-> is_due d now maxAgeMs x = true)
  /\ (forall x, sw_dir s !! x
               = if decide (x ∈ unlinked s /\ unlink_refused o x = false)
                 then None else d !! x)
  /\ (cleanOldFiles cfg o now d).2
     = (if (0 <? removed s)%nat then [LogRemoved (removed s)] else []).
Proof.
  intros Hr Hs maxAgeMs s. subst s.
  unfold cleanOldFiles, readdir. rewrite Hr. fold maxAgeMs.
  destruct (readdir_entries d) as (Hnd & Hent & Hdom).
  destruct (sweep_entries_spec o now maxAgeMs Hs _ (Sweep d 0 []) Hnd Hent)
    as (s' & -> & Hun & Hdir).
  simpl in *.
  assert (Hun' : forall x, x ∈ unlinked s' <-> is_due d now maxAgeMs x = true).
  { intros x. rewrite Hun, Hdom, elem_of_nil. split.
    - intros [[]|[? _]]. done.
    - intros Hd. right. split; [done|].
      apply is_due_true in Hd as (e & He & _). by exists e. }
  split; [done|]. split; [|done].
  intros x. rewrite Hdir.
  destruct (decide (is_due d now maxAgeMs x = true
                    /\ x ∈ (_ <$> map_to_list d).*1
                    /\ unlink_refused o x = false)) as [A|A];
    destruct (decide (x ∈ unlinked s' /\ unlink_refused o x = false))
      as [B|B]; try done; exfalso.
  - destruct A as (Hd & _ & Href). apply B. by rewrite Hun'.
  - destruct B as (Hd & Href). apply A. rewrite <- Hun'.
    split; [done|]. split; [|done]. apply Hdom.
    apply Hun', is_due_true in Hd as (e & He & _). by exists e.
Qed.

(** X18. Sweeping twice: after a sweep in which the listing and every
    [stat] succeeded and no entry was refused, a second sweep at the same
    time finds nothing to do: it unlinks nothing, leaves the directory as
    the first one left it and logs nothing. *)
Theorem sweep_twice (cfg : config) (o : os) (now : Z)
    (d : gmap jsstring entry) :
  readdir_fault o = None ->
  (forall n : jsstring, stat_fault o n = None) ->
  (forall x : jsstring, is_Some (d !! x) -> unlink_refused o x = false) ->
  let d1 := sw_dir (cleanOldFiles cfg o now d).1 in
  cleanOldFiles cfg o now d1 = (Sweep d1 0 [], []).
Proof.
  intros Hr Hs Href d1.
  destruct (cleanOldFiles_spec cfg o now d Hr Hs) as (Hun1 & Hdir1 & _).
  destruct (cleanOldFiles_spec cfg o now d1 Hr Hs) as (Hun2 & Hdir2 & Hlog2).
  destruct (cleanOldFiles_inv cfg o now d1) as [(_ & _ & Hrem) _].
  fold d1 in Hdir1.
  assert (Hnone : forall x,
            is_due d1 now (MAX_AGE_HOURS cfg * 60 * 60 * 1000) x = false).
  { intros x. apply not_true_is_false. intros Hd.
    pose proof Hd as Hd'.
    apply is_due_true in Hd as (e & He & Hk & Hlt).
    rewrite Hdir1 in He. case_decide as Hc; [done|].
    assert (Hdue : is_due d now (MAX_AGE_HOURS cfg * 60 * 60 * 1000) x = true).
    { apply is_due_true. by exists e. }
    apply Hc. split; [by apply Hun1|]. apply Href. by exists e. }
  assert (Hnil : unlinked (cleanOldFiles cfg o now d1).1 = []).
  { apply elem_of_nil_inv. intros x Hx. apply Hun2 in Hx.
    by rewrite Hnone in Hx. }
  rewrite Hnil in Hrem. simpl in Hrem.
  rewrite (surjective_pairing (cleanOldFiles cfg o now d1)).
  rewrite Hlog2, Hrem. simpl. f_equal.
  destruct (cleanOldFiles cfg o now d1).1 as [sd r u] eqn:Es.
  simpl in *. subst r u. f_equal.
  apply map_eq. intros x. rewrite Hdir2.
  case_decide as Hc; [|done]. destruct Hc as [Hc _].
  by apply elem_of_nil in Hc.
Qed.

Lemma sweep_twice_witness :
  cleanOldFiles Sample.cfg Sample.quiet Sample.now
    (sw_dir (cleanOldFiles Sample.cfg Sample.quiet Sample.now
               (<[lit "old.png" := Entry RegularFile 0 10]> ∅)).1)
  = (Sweep (sw_dir (cleanOldFiles Sample.cfg Sample.quiet Sample.now
                      (<[lit "old.png" := Entry RegularFile 0 10]> ∅)).1)
           0 [], []).
Proof.
  apply (sweep_twice Sample.cfg Sample.quiet Sample.now
           (<[lit "old.png" := Entry RegularFile 0 10]> ∅)).
  - reflexivity.
  - reflexivity.
  - intros x [e He].
    apply lookup_insert_Some in He as [[<- _]|[_ He]]; [by vm_compute|].
    by rewrite lookup_empty in He.
Defined.

End SweepMore.
